(** * WIRE experiment drivers: image denoising and occupancy fitting

    A shallow embedding of [wire_image_denoise.py] and [wire_occupancy.py].

    Conventions of the embedding.
    - Python floats that the scripts only add, divide, square and compare
      (pixel values, losses, mean squared errors) are exact rationals [Q];
      rounding is not modelled, and results are compared with [Qeq].
    - [float("inf")] is the extra point [PInf] of [ext].
    - Quantities computed with [**] or [log10] (the learning-rate multiplier,
      PSNR) are real numbers [R].
    - A tensor of shape (N, D) (or (1, N, D)) is a list of N pixels, a pixel
      being the list of its D channel values.
    - [torch.randperm] is an oracle handing out the permutation of each epoch.
    - The network and its optimizer come from [modules.models] and torch;
      they are section variables.
    - Wall-clock time ([time_array]) and the display calls (tqdm, cv2, print)
      are left out. *)

From Stdlib Require Import ZArith QArith Qminmax Qreals Reals Lra Lia Ascii.
From stdpp Require Import base list.

(** ** Python exceptions *)

Inductive exn : Type :=
  | ValueError
  | ZeroDivisionError
  | NameError
  | TypeError
  | AttributeError
  | IndexError
  | TrackerError.

Inductive result (A : Type) : Type :=
  | Ok (a : A)
  | Raise (e : exn).

Arguments Ok {A} a.
Arguments Raise {A} e.

(** A loop [for a in l: body] over a state, stopped by the first exception;
    the state reached so far is kept. *)
Fixpoint for_each {A S : Type} (body : A -> S -> S * result unit)
    (l : list A) (s : S) : S * result unit :=
  match l with
  | [] => (s, Ok tt)
  | a :: l' =>
      match body a s with
      | (s', Ok _) => for_each body l' s'
      | (s', Raise e) => (s', Raise e)
      end
  end.

(** ** Scalars *)

Definition Qltb (a b : Q) : bool := negb (Qle_bool b a).

(** A float that may be [float("inf")]. *)
Inductive ext : Type :=
  | Fin (q : Q)
  | PInf.

(** [x < y] on floats without NaN. *)
Definition ext_ltb (x y : ext) : bool :=
  match x, y with
  | Fin a, Fin b => Qltb a b
  | Fin _, PInf => true
  | PInf, _ => false
  end.

(** The value [-10 * log10(mse)], kept as the term it is computed by. *)
Record decibels : Type := NegTenLog10 { of_mse : Q }.

Definition log10 (x : R) : R := (ln x / ln 10)%R.

Definition psnr_of_mse (m : R) : R := (-10 * log10 m)%R.

Definition dB_value (p : decibels) : R := psnr_of_mse (Q2R (of_mse p)).

(** ** Tensors *)

Abbreviation pixel := (list Q) (only parsing).
Abbreviation tensor := (list (list Q)) (only parsing).

Definition Qsum (l : list Q) : Q := foldr Qplus 0%Q l.

(** [x.mean()] over the elements listed in [l]. *)
Definition mean (l : list Q) : Q := (Qsum l / inject_Z (Z.of_nat (length l)))%Q.

Definition sq_diff (a b : Q) : Q := ((a - b) * (a - b))%Q.

(** The elements of [(x - y) ** 2] for two tensors of one shape. *)
Definition sq_errors (x y : tensor) : list Q :=
  concat (zip_with (zip_with sq_diff) x y).

(** [((x - y) ** 2).mean()], which is also [torch.nn.MSELoss()(x, y)]. *)
Definition mse (x y : tensor) : Q := mean (sq_errors x y).

(** [t[idx]]: the rows of [t] at the positions [idx]. The positions handed
    out by [torch.randperm] are in range; out of range Python raises
    [IndexError], here the default element stands in. *)
Definition gather {A} `{Inhabited A} (t : list A) (idx : list nat) : list A :=
  (fun i => t !!! i) <$> idx.

(** [buf[idx] = vals], row by row. *)
Definition scatter {A} (buf : list A) (idx : list nat) (vals : list A) : list A :=
  foldl (fun b iv => <[iv.1 := iv.2]> b) buf (zip idx vals).

(** ** Batching *)

(** [a[lo:hi]] for non-negative bounds. *)
Definition slice {A} (l : list A) (lo hi : nat) : list A :=
  take (hi - lo) (drop lo l).

(** The values [start, start+step, ...] below [stop], for [step > 0];
    [fuel] bounds the number of values. *)
Fixpoint range_from (fuel start stop step : nat) : list nat :=
  match fuel with
  | O => []
  | S fuel' =>
      if (start <? stop)%nat
      then start :: range_from fuel' (start + step) stop step
      else []
  end.

(** [range(start, stop, step)]: a zero step raises [ValueError]. *)
Definition py_range (start stop step : nat) : result (list nat) :=
  if (step =? 0)%nat then Raise ValueError
  else Ok (range_from stop start stop step).

(** The minibatches of one epoch:
    [indices[b_idx : min(n, b_idx + maxpoints)]] for
    [b_idx in range(0, n, maxpoints)]. *)
Definition minibatches (n maxpoints : nat) (indices : list nat)
  : result (list (list nat)) :=
  match py_range 0 n maxpoints with
  | Raise e => Raise e
  | Ok starts =>
      Ok ((fun b_idx => slice indices b_idx (Nat.min n (b_idx + maxpoints)))
            <$> starts)
  end.

(** ** Learning rate *)

(** The lambda given to [LambdaLR]: [d ** min(x / niters, 1)]. *)
Definition lr_lambda (d : R) (niters x : nat) : R :=
  Rpower d (Rmin (INR x / INR niters) 1).

(** torch's [LambdaLR]: the rate in force once the scheduler has been stepped
    [last_epoch] times is the optimizer's initial rate times the lambda. *)
Definition lambda_lr (initial_lr : R) (lr_lambda : nat -> R) (last_epoch : nat) : R :=
  (initial_lr * lr_lambda last_epoch)%R.

(** [learning_rate * min(1, maxpoints / (H * W))] of the image script. *)
Definition image_initial_lr (learning_rate : R) (maxpoints H W : nat) : R :=
  (learning_rate * Rmin 1 (INR maxpoints / INR (H * W)))%R.

(** Building the optimizer of the image script evaluates
    [maxpoints / (H * W)], which raises on an image without pixels. *)
Definition image_optim_init (H W : nat) : result unit :=
  if (H * W =? 0)%nat then Raise ZeroDivisionError else Ok tt.

(** Building the scheduler: the constructor of [LambdaLR] takes the first
    scheduler step and so evaluates the lambda at 0, where [0 / niters]
    raises when [niters] is 0. *)
Definition scheduler_init (niters : nat) : result unit :=
  if (niters =? 0)%nat then Raise ZeroDivisionError else Ok tt.

(** The occupancy script hands [learning_rate] to Adam as it is. *)
Definition occupancy_initial_lr (learning_rate : R) : R := learning_rate.

Definition image_niters : nat := 2000.
Definition image_decay : R := (1 / 10)%R.
Definition image_maxpoints : nat := 256 * 256.
Definition occupancy_niters : nat := 200.
Definition occupancy_decay : R := (2 / 10)%R.
Definition occupancy_maxpoints : nat := 2 * 10 ^ 5.
Definition learning_rate : R := (5 / 1000)%R.

(** The rate Adam uses during epoch [epoch] of the image script. *)
Definition image_lr (H W epoch : nat) : R :=
  lambda_lr (image_initial_lr learning_rate image_maxpoints H W)
            (lr_lambda image_decay image_niters) epoch.

Definition occupancy_lr (epoch : nat) : R :=
  lambda_lr (occupancy_initial_lr learning_rate)
            (lr_lambda occupancy_decay occupancy_niters) epoch.

(** ** Intersection over union *)

(** Modelled from the spec: binarizing an array at a threshold, for
    [volutils.get_IoU], which is not among the sources. An element is set
    when it exceeds the threshold. *)
Definition binarize (thres : Q) (a : list Q) : list bool :=
  (fun v => Qltb thres v) <$> a.

Definition count_true (l : list bool) : nat :=
  length (List.filter (fun b : bool => b) l).

(** Modelled from the spec: [volutils.get_IoU] is not among the sources. The
    spec's [iou(estimate, reference, threshold)] binarizes both arrays at
    [threshold] and returns intersection-count / union-count, and 0 when the
    union is empty. *)
Definition iou (estimate reference : list Q) (thres : Q) : Q :=
  let e := binarize thres estimate in
  let r := binarize thres reference in
  let intersection := count_true (zip_with andb e r) in
  let union := count_true (zip_with orb e r) in
  if (union =? 0)%nat then 0%Q
  else (inject_Z (Z.of_nat intersection) / inject_Z (Z.of_nat union))%Q.

(** [volutils.get_IoU(preds, gt, thres)] on tensors of shape (N, 1). *)
Definition get_IoU (preds gt : tensor) (thres : Q) : Q :=
  iou (concat preds) (concat gt) thres.

(** ** Cropping the occupancy volume *)

(** A volume of shape (H, W, T): planes of rows of samples. *)
Abbreviation volume := (list (list (list Q))) (only parsing).

(** [np.where(im > thres)]: the positions above the threshold, row-major. *)
Definition np_where_gt (im : volume) (thres : Q) : list (nat * nat * nat) :=
  concat (imap (fun h plane =>
    concat (imap (fun w row =>
      omap (fun o => o) (imap (fun t v => if Qltb thres v then Some (h, w, t) else None) row))
    plane)) im).

(** [a.min()] and [a.max()] of an index array; empty arrays raise. *)
Definition np_min (a : list nat) : result nat :=
  match a with
  | [] => Raise ValueError
  | x :: a' => Ok (foldl Nat.min x a')
  end.

Definition np_max (a : list nat) : result nat :=
  match a with
  | [] => Raise ValueError
  | x :: a' => Ok (foldl Nat.max x a')
  end.

(** [im[h0:h1, w0:w1, t0:t1]]. *)
Definition slice3 (im : volume) (h0 h1 w0 w1 t0 t1 : nat) : volume :=
  (fun plane => (fun row => slice row t0 t1) <$> slice plane w0 w1)
    <$> slice im h0 h1.

(** The crop of the occupancy script:
    [hidx, widx, tidx = np.where(im > 0.99)] and
    [im[hidx.min():hidx.max(), widx.min():widx.max(), tidx.min():tidx.max()]]. *)
Definition crop (im : volume) : result volume :=
  let idx := np_where_gt im (99 # 100) in
  let hidx := (fun p => p.1.1) <$> idx in
  let widx := (fun p => p.1.2) <$> idx in
  let tidx := (fun p => p.2) <$> idx in
  match np_min hidx, np_max hidx, np_min widx, np_max widx, np_min tidx, np_max tidx with
  | Ok h0, Ok h1, Ok w0, Ok w1, Ok t0, Ok t1 => Ok (slice3 im h0 h1 w0 w1 t0 t1)
  | _, _, _, _, _, _ => Raise ValueError
  end.

(** [im.shape] of a volume that has no empty axis. (Nested lists do not hold
    the extents that lie under an empty axis; see [crop_shape].) *)
Definition shape (im : volume) : nat * nat * nat :=
  (length im, length (im !!! 0%nat), length ((im !!! 0%nat) !!! 0%nat)).

(** The extent of [a[lo:hi]] along an axis of extent [n]. *)
Definition slice_extent (n lo hi : nat) : nat := Nat.min hi n - Nat.min lo n.

(** [im.shape] after the crop. numpy keeps the extent of every axis of the
    slice, also when another axis is empty: a volume cropped to
    [im[0:0, 0:2, 0:2]] has shape (0, 2, 2). *)
Definition crop_shape (im : volume) : result (nat * nat * nat) :=
  let idx := np_where_gt im (99 # 100) in
  let hidx := (fun p => p.1.1) <$> idx in
  let widx := (fun p => p.1.2) <$> idx in
  let tidx := (fun p => p.2) <$> idx in
  let '(H, W, T) := shape im in
  match np_min hidx, np_max hidx, np_min widx, np_max widx, np_min tidx, np_max tidx with
  | Ok h0, Ok h1, Ok w0, Ok w1, Ok t0, Ok t1 =>
      Ok (slice_extent H h0 h1, slice_extent W w0 w1, slice_extent T t0 t1)
  | _, _, _, _, _, _ => Raise ValueError
  end.

(** [im.reshape(H * W * T, 1)]. *)
Definition flatten (im : volume) : tensor :=
  (fun v => [v]) <$> concat (concat im).

(** The samples of a volume that exceed [thres]. *)
Definition count_above (im : volume) (thres : Q) : nat :=
  length (np_where_gt im thres).

(** ** One minibatch *)

(** [out.squeeze()[:, None]] for a model output of shape (1, B, 1), held as
    its B rows. [squeeze] drops every axis of extent one: for B = 1 no axis
    is left, and indexing the scalar with [[:, None]] raises [IndexError].
    Otherwise the B rows come back as a tensor of shape (B, 1). *)
Definition squeeze_column (out : tensor) : result tensor :=
  match out with
  | [_] => Raise IndexError
  | _ => Ok out
  end.

(** The Python variables the minibatch loop updates. [loss] is unbound
    ([None]) until a minibatch has run. *)
Record loop_state {Net : Type} : Type := {
  l_net : Net;
  l_buf : tensor;
  train_loss : Q;
  cnt : nat;
  loss : option Q
}.
Arguments loop_state : clear implicits.

Section Minibatch.
Context {Coord Net : Type} `{Coord_inhabited : Inhabited Coord}.
(** [model(b_coords)]: one pixel for each coordinate. *)
Variable forward : Net -> list Coord -> tensor.
(** [optim.zero_grad(); loss.backward(); optim.step()] for the loss of the
    predictions at [b_coords] against [targets], at the rate the scheduler
    has set after [last_epoch] steps. *)
Variable optim_step : Net -> nat -> list Coord -> tensor -> Net.
Variable coords : list Coord.
Variable targets : tensor.
Variable last_epoch : nat.

(** The body of [for b_idx in range(0, n, maxpoints)]. *)
Definition minibatch (s : loop_state Net) (b_indices : list nat) : loop_state Net :=
  let b_coords := gather coords b_indices in
  let pixelvalues := forward (l_net s) b_coords in
  let buf' := scatter (l_buf s) b_indices pixelvalues in
  let b_targets := gather targets b_indices in
  let loss_item := mse pixelvalues b_targets in
  {| l_net := optim_step (l_net s) last_epoch b_coords b_targets;
     l_buf := buf';
     train_loss := (train_loss s + loss_item)%Q;
     cnt := S (cnt s);
     loss := Some loss_item |}.

(** The body of the same loop in the occupancy script, whose prediction is
    [model(b_coords[None, ...]).squeeze()[:, None]]; when that raises,
    nothing of the minibatch has been done. *)
Definition occupancy_minibatch (b_indices : list nat) (s : loop_state Net)
  : loop_state Net * result unit :=
  let b_coords := gather coords b_indices in
  match squeeze_column (forward (l_net s) b_coords) with
  | Raise e => (s, Raise e)
  | Ok pixelvalues =>
      let buf' := scatter (l_buf s) b_indices pixelvalues in
      let b_targets := gather targets b_indices in
      let lossval := mse pixelvalues b_targets in
      ({| l_net := optim_step (l_net s) last_epoch b_coords b_targets;
          l_buf := buf';
          train_loss := (train_loss s + lossval)%Q;
          cnt := S (cnt s);
          loss := Some lossval |},
       Ok tt)
  end.

(** The losses of the minibatches of an epoch, in order. *)
Fixpoint batch_losses (net : Net) (batches : list (list nat)) : list Q :=
  match batches with
  | [] => []
  | b :: batches' =>
      mse (forward net (gather coords b)) (gather targets b)
      :: batch_losses (optim_step net last_epoch (gather coords b) (gather targets b))
                      batches'
  end.

End Minibatch.

(** ** Reporting *)

Inductive metric : Type :=
  | Psnr (p : decibels)
  | Iou (q : Q).

(** One call of [xp.log]. *)
Record log_entry : Type := { log_loss : Q; log_metric : metric }.

(** The remote tracker: whether [wandb.init], the [xp.log] of each epoch and
    the reporting call that ends the script succeed. *)
Record tracker : Type := {
  init_ok : bool;
  log_ok : nat -> bool;
  final_ok : bool
}.

(** [xp.log({"loss": train_loss / cnt, ...})]: the quotient is evaluated
    first and raises when no minibatch ran. *)
Definition xp_log (wandb : tracker) (epoch : nat) (train_loss : Q) (cnt : nat)
    (m : metric) (history : list log_entry) : result (list log_entry) :=
  if (cnt =? 0)%nat then Raise ZeroDivisionError
  else if log_ok wandb epoch
       then Ok (history ++ [{| log_loss := (train_loss / inject_Z (Z.of_nat cnt))%Q;
                               log_metric := m |}])
       else Raise TrackerError.

(** What a script has written to disk. *)
Inductive artifact {Net : Type} : Type :=
  | ResultsMat (rec : option tensor) (history : list (list Q))
  | ModelCheckpoint (state_dict : Net)
  | PreviewImage (img : tensor)
  | Mesh (vol : tensor)
  | SavedArray (vol : tensor).
Arguments artifact : clear implicits.

Definition zeros_like (t : tensor) : tensor :=
  (fun p : pixel => (fun _ => 0%Q) <$> p) <$> t.

(** ** The image-denoising script *)

Module Image.

Record state {Net : Type} : Type := {
  net : Net;
  rec : tensor;
  mse_array : list Q;
  mse_loss_array : list Q;
  best_mse : ext;
  best_img : option tensor;
  last_epoch : nat;
  xp_history : list log_entry
}.
Arguments state : clear implicits.

Record outcome {Net : Type} : Type := {
  final : state Net;
  persisted : list (artifact Net);
  exit : result unit
}.
Arguments outcome : clear implicits.

(** [(mse_array[epoch] < best_mse) or (epoch == 0)]. *)
Definition is_best (epoch : nat) (mse_epoch : Q) (best_mse : ext) : bool :=
  ext_ltb (Fin mse_epoch) best_mse || (epoch =? 0)%nat.

Section Script.
Context {Coord Net : Type} `{Coord_inhabited : Inhabited Coord}.
Variable forward : Net -> list Coord -> tensor.
Variable optim_step : Net -> nat -> list Coord -> tensor -> Net.
Variable randperm : nat -> nat -> list nat.
(** [os.getenv("WANDB_LOG") in ["true", "True", True]]. *)
Variable wandb_log : bool.
Variable wandb : tracker.
Variables H W : nat.
Variable coords : list Coord.
Variables gt gt_noisy : tensor.
Variables niters maxpoints : nat.

(** The body of [for epoch in tbar]. *)
Definition epoch_body (epoch : nat) (s : state Net) : state Net * result unit :=
  let indices := randperm epoch (H * W) in
  match minibatches (H * W) maxpoints indices with
  | Raise e => (s, Raise e)
  | Ok batches =>
      let l := foldl (minibatch forward optim_step coords gt_noisy (last_epoch s))
                 {| l_net := net s; l_buf := rec s; train_loss := 0%Q; cnt := 0;
                    loss := None |}
                 batches in
      let mse_noisy := mse gt_noisy (l_buf l) in
      let mse_gt := mse gt (l_buf l) in
      let psnrval := NegTenLog10 mse_gt in
      match (if wandb_log
             then xp_log wandb epoch (train_loss l) (cnt l) (Psnr psnrval) (xp_history s)
             else Ok (xp_history s)) with
      | Raise e =>
          ({| net := l_net l; rec := l_buf l;
              mse_array := <[epoch := mse_gt]> (mse_array s);
              mse_loss_array := <[epoch := mse_noisy]> (mse_loss_array s);
              best_mse := best_mse s; best_img := best_img s;
              last_epoch := last_epoch s; xp_history := xp_history s |},
           Raise e)
      | Ok history =>
          let imrec := l_buf l in
          let improved := is_best epoch mse_gt (best_mse s) in
          ({| net := l_net l; rec := l_buf l;
              mse_array := <[epoch := mse_gt]> (mse_array s);
              mse_loss_array := <[epoch := mse_noisy]> (mse_loss_array s);
              best_mse := if improved then Fin mse_gt else best_mse s;
              best_img := if improved then Some imrec else best_img s;
              last_epoch := S (last_epoch s); xp_history := history |},
           Ok tt)
      end
  end.

Definition init (net0 : Net) : state Net :=
  {| net := net0; rec := zeros_like gt;
     mse_array := replicate niters 0%Q; mse_loss_array := replicate niters 0%Q;
     best_mse := PInf; best_img := None; last_epoch := 0; xp_history := [] |}.

(** The first [k] epochs of the training loop. *)
Definition epochs (k : nat) (net0 : Net) : state Net * result unit :=
  for_each epoch_body (seq 0 k) (init net0).

Definition state_after (k : nat) (net0 : Net) : state Net := fst (epochs k net0).

(** The tracked metric of epoch [e]: the mean squared error of the
    Reconstruction Buffer, as the epoch leaves it, against the ground truth. *)
Definition mse_of_epoch (e : nat) (net0 : Net) : Q :=
  mse gt (rec (state_after (S e) net0)).

(** Whether the test that guards [best_img = imrec] holds in epoch [e]. *)
Definition overwritten (e : nat) (net0 : Net) : bool :=
  is_best e (mse_of_epoch e net0) (best_mse (state_after e net0)).

(** The script: [wandb.init] when logging is on, the optimizer and the
    scheduler, the training loop, the results file, the checkpoint and the
    preview, then [wandb.log]. Saving a run without a best image raises. *)
Definition main (net0 : Net) : outcome Net :=
  if wandb_log && negb (init_ok wandb)
  then {| final := init net0; persisted := []; exit := Raise TrackerError |}
  else
    match image_optim_init H W with
    | Raise e => {| final := init net0; persisted := []; exit := Raise e |}
    | Ok _ =>
        match scheduler_init niters with
        | Raise e => {| final := init net0; persisted := []; exit := Raise e |}
        | Ok _ =>
            match epochs niters net0 with
            | (s, Raise e) => {| final := s; persisted := []; exit := Raise e |}
            | (s, Ok _) =>
                match best_img s with
                | None => {| final := s; persisted := []; exit := Raise TypeError |}
                | Some img =>
                    {| final := s;
                       persisted :=
                         [ResultsMat (best_img s) [mse_loss_array s; mse_array s];
                          ModelCheckpoint (net s);
                          PreviewImage img];
                       exit := if final_ok wandb then Ok tt else Raise TrackerError |}
                end
            end
        end
    end.

End Script.
End Image.

(** ** The occupancy script *)

Module Occupancy.

(** [occupancy = True]; the script has no other setting. *)
Definition occupancy : bool := true.

(** [mcubes_thres = 0.5]. *)
Definition mcubes_thres : Q := 1 # 2.

Record state {Net : Type} : Type := {
  net : Net;
  im_estim : tensor;
  mse_array : list Q;
  best_mse : ext;
  best_img : option tensor;
  lossval : option Q;
  last_epoch : nat;
  xp_history : list log_entry
}.
Arguments state : clear implicits.

Record outcome {Net : Type} : Type := {
  final : option (state Net);
  persisted : list (artifact Net);
  exit : result unit
}.
Arguments outcome : clear implicits.

(** [lossval < best_mse]. *)
Definition is_best (lossval : Q) (best_mse : ext) : bool :=
  ext_ltb (Fin lossval) best_mse.

Section Script.
Context {Coord Net : Type} `{Coord_inhabited : Inhabited Coord}.
Variable forward : Net -> list Coord -> tensor.
Variable optim_step : Net -> nat -> list Coord -> tensor -> Net.
Variable randperm : nat -> nat -> list nat.
Variable wandb_log : bool.
Variable wandb : tracker.
(** [utils.get_coords(H, W, T)], which is not among the sources. *)
Variable get_coords : nat -> nat -> nat -> list Coord.
Variables niters maxpoints : nat.

Section Training.
Variables H W T : nat.
(** The volume after the crop. *)
Variable im : volume.

(** [maxpoints = min(H * W * T, maxpoints)]. *)
Definition batch_size : nat := Nat.min (H * W * T) maxpoints.

Definition imten : tensor := flatten im.

Definition coords : list Coord := get_coords H W T.

(** The body of [for idx in tbar]. *)
Definition epoch_body (idx : nat) (s : state Net) : state Net * result unit :=
  let indices := randperm idx (H * W * T) in
  match minibatches (H * W * T) batch_size indices with
  | Raise e => (s, Raise e)
  | Ok batches =>
      match for_each (occupancy_minibatch forward optim_step coords imten (last_epoch s))
              batches
              {| l_net := net s; l_buf := im_estim s; train_loss := 0%Q; cnt := 0;
                 loss := lossval s |} with
      | (l, Raise e) =>
          ({| net := l_net l; im_estim := l_buf l; mse_array := mse_array s;
              best_mse := best_mse s; best_img := best_img s; lossval := loss l;
              last_epoch := last_epoch s; xp_history := xp_history s |},
           Raise e)
      | (l, Ok _) =>
          let nchunks := cnt l in
          match (if occupancy
                 then Ok (get_IoU (l_buf l) imten mcubes_thres)
                 else if (nchunks =? 0)%nat then Raise ZeroDivisionError
                      else Ok (train_loss l / inject_Z (Z.of_nat nchunks))%Q) with
          | Raise e =>
              ({| net := l_net l; im_estim := l_buf l; mse_array := mse_array s;
                  best_mse := best_mse s; best_img := best_img s; lossval := loss l;
                  last_epoch := last_epoch s; xp_history := xp_history s |},
               Raise e)
          | Ok m =>
              match (if wandb_log
                     then xp_log wandb idx (train_loss l) nchunks
                            (Iou (get_IoU (l_buf l) imten mcubes_thres)) (xp_history s)
                     else Ok (xp_history s)) with
              | Raise e =>
                  ({| net := l_net l; im_estim := l_buf l;
                      mse_array := <[idx := m]> (mse_array s);
                      best_mse := best_mse s; best_img := best_img s; lossval := loss l;
                      last_epoch := last_epoch s; xp_history := xp_history s |},
                   Raise e)
              | Ok history =>
                  match loss l with
                  | None =>
                      ({| net := l_net l; im_estim := l_buf l;
                          mse_array := <[idx := m]> (mse_array s);
                          best_mse := best_mse s; best_img := best_img s;
                          lossval := None;
                          last_epoch := S (last_epoch s); xp_history := history |},
                       Raise NameError)
                  | Some lv =>
                      let improved := is_best lv (best_mse s) in
                      ({| net := l_net l; im_estim := l_buf l;
                          mse_array := <[idx := m]> (mse_array s);
                          best_mse := if improved then Fin lv else best_mse s;
                          best_img := if improved then Some (l_buf l) else best_img s;
                          lossval := Some lv;
                          last_epoch := S (last_epoch s); xp_history := history |},
                       Ok tt)
                  end
              end
          end
      end
  end.

Definition init (net0 : Net) : state Net :=
  {| net := net0; im_estim := replicate (H * W * T) [0%Q];
     mse_array := replicate niters 0%Q;
     best_mse := PInf; best_img := None; lossval := None;
     last_epoch := 0; xp_history := [] |}.

(** The first [k] epochs of the training loop. *)
Definition epochs (k : nat) (net0 : Net) : state Net * result unit :=
  for_each epoch_body (seq 0 k) (init net0).

Definition state_after (k : nat) (net0 : Net) : state Net := fst (epochs k net0).

(** The tracked metric of epoch [e]: the IoU of the Reconstruction Buffer,
    as the epoch leaves it, against the volume. *)
Definition iou_of_epoch (e : nat) (net0 : Net) : Q :=
  get_IoU (im_estim (state_after (S e) net0)) imten mcubes_thres.

(** The loss of the last minibatch of epoch [e]. *)
Definition lossval_of_epoch (e : nat) (net0 : Net) : option Q :=
  lossval (state_after (S e) net0).

(** Whether the test that guards [best_img = copy.deepcopy(im_estim)] holds
    in epoch [e]. *)
Definition overwritten (e : nat) (net0 : Net) : bool :=
  match lossval_of_epoch e net0 with
  | Some lv => is_best lv (best_mse (state_after e net0))
  | None => false
  end.

End Training.

(** The script on the volume [raw] as loaded and scaled: [wandb.init] when
    logging is on, the crop and its shape, the scheduler, the training loop,
    the results file, the mesh, the checkpoint and the saved array, then
    [wandb.log_artifact]. *)
Definition main (raw : volume) (net0 : Net) : outcome Net :=
  if wandb_log && negb (init_ok wandb)
  then {| final := None; persisted := []; exit := Raise TrackerError |}
  else
    match crop raw, crop_shape raw with
    | Raise e, _ | Ok _, Raise e =>
        {| final := None; persisted := []; exit := Raise e |}
    | Ok im, Ok (H, W, T) =>
        match scheduler_init niters with
        | Raise e => {| final := None; persisted := []; exit := Raise e |}
        | Ok _ =>
            match epochs H W T im niters net0 with
            | (s, Raise e) => {| final := Some s; persisted := []; exit := Raise e |}
            | (s, Ok _) =>
                match best_img s with
                | None =>
                    {| final := Some s; persisted := []; exit := Raise AttributeError |}
                | Some img =>
                    {| final := Some s;
                       persisted :=
                         [ResultsMat None [mse_array s];
                          Mesh img;
                          ModelCheckpoint (net s);
                          SavedArray img];
                       exit := if final_ok wandb then Ok tt else Raise TrackerError |}
                end
            end
        end
    end.

End Script.
End Occupancy.


(** ** Reading a volume *)

(** [im[h, w, t]], or [None] outside the volume. *)
Definition lookup3 (im : volume) (h w t : nat) : option Q :=
  match im !! h with
  | Some plane =>
      match plane !! w with
      | Some row => row !! t
      | None => None
      end
  | None => None
  end.

(** ** The command line *)

(** The choices of [--nonlinearity]. *)
Inductive nonlinearity : Type :=
  | wire
  | siren
  | mfn
  | relu
  | posenc
  | gauss.

(** What the image script hands to [models.get_INR]: the nonlinearity, the
    [pos_encode] flag and the side length. With [posenc] the network is a
    ReLU network behind a positional encoding, of side length
    [int(max(H, W) / 3)] when [tau < 100] and [int(max(H, W))] otherwise. *)
Definition image_model_choice (nonlin : nonlinearity) (tau : Q) (H W : nat)
  : nonlinearity * bool * nat :=
  match nonlin with
  | posenc =>
      (relu, true, if Qltb tau 100 then Nat.max H W / 3 else Nat.max H W)
  | _ => (nonlin, false, H)
  end.

(** The same for the occupancy script, whose side length is [max(H, W, T)]. *)
Definition occupancy_model_choice (nonlin : nonlinearity) (H W T : nat)
  : nonlinearity * bool * nat :=
  match nonlin with
  | posenc => (relu, true, Nat.max (Nat.max H W) T)
  | _ => (nonlin, false, Nat.max (Nat.max H W) T)
  end.

(** [if posencode: nonlin = "posenc"], which names the output files. *)
Definition saved_nonlin (nonlin : nonlinearity) (posencode : bool) : nonlinearity :=
  if posencode then posenc else nonlin.

(** [img_name_ext.split(".")[0]]: the characters before the first dot. *)
Fixpoint img_name (img_name_ext : list ascii) : list ascii :=
  match img_name_ext with
  | [] => []
  | c :: rest => if Ascii.eqb c "."%char then [] else c :: img_name rest
  end.

(** ** The squared errors of the minibatches *)

Section MinibatchErrors.
Context {Coord Net : Type} `{Coord_inhabited : Inhabited Coord}.
Variable forward : Net -> list Coord -> tensor.
Variable optim_step : Net -> nat -> list Coord -> tensor -> Net.
Variable coords : list Coord.
Variable targets : tensor.
Variable last_epoch : nat.

(** The elements of [(pixelvalues - targets[b_indices]) ** 2] for each
    minibatch of an epoch, in order; the loss of the minibatch is their
    mean. *)
Fixpoint batch_sq_errors (net : Net) (batches : list (list nat)) : list (list Q) :=
  match batches with
  | [] => []
  | b :: batches' =>
      sq_errors (forward net (gather coords b)) (gather targets b)
      :: batch_sq_errors (optim_step net last_epoch (gather coords b) (gather targets b))
                         batches'
  end.

End MinibatchErrors.
(** ** Concrete inputs *)

(** A draw of [torch.randperm(5)], the same in every epoch. *)
Definition demo_perm : nat -> nat -> list nat := fun _ _ => [3; 1; 4; 0; 2].

(** A stand-in network: its state counts the optimizer steps taken, and it
    predicts, at coordinate [c], the value state + [c] on one channel. *)
Definition demo_forward (net : nat) (b_coords : list nat) : tensor :=
  (fun c => [inject_Z (Z.of_nat (net + c))]) <$> b_coords.

Definition demo_optim_step (net last_epoch : nat) (b_coords : list nat)
    (b_targets : tensor) : nat := S net.

Definition demo_loop_state : loop_state nat :=
  {| l_net := 0; l_buf := [[0%Q]; [0%Q]; [0%Q]]; train_loss := 0%Q; cnt := 0;
     loss := None |}.

(** A three-pixel image with one channel, its noisy observation, and a draw
    of [torch.randperm(3)]. *)
Definition demo_gt : tensor := [[1%Q]; [1%Q]; [1%Q]].
Definition demo_gt_noisy : tensor := [[2%Q]; [0%Q]; [1%Q]].
Definition demo_randperm : nat -> nat -> list nat := fun _ _ => [2; 0; 1].
Definition demo_coords : list nat := [0; 1; 2].

(** A tracker that is always reachable, and one that [wandb.init] reaches
    and no later call does. *)
Definition tracker_up : tracker :=
  {| init_ok := true; log_ok := fun _ => true; final_ok := true |}.
Definition tracker_down : tracker :=
  {| init_ok := true; log_ok := fun _ => false; final_ok := false |}.

(** One epoch of the image script on the three-pixel image, in minibatches
    of two. *)
Definition demo_image_epoch (wandb_log : bool) (wandb : tracker) (epoch : nat)
    (s : Image.state nat) : Image.state nat * result unit :=
  Image.epoch_body demo_forward demo_optim_step demo_randperm wandb_log wandb
    1 3 demo_coords demo_gt demo_gt_noisy 2 epoch s.

Definition demo_image_init : Image.state nat := Image.init demo_gt 2 0.

(** A two-voxel occupancy volume (already cropped) of shape (1, 1, 2), and a
    stand-in network whose first predictions are 0.4 at both voxels and whose
    later predictions are 0.6 and 2. *)
Definition demo_volume : volume := [[[1%Q; 0%Q]]].
Definition demo_get_coords : nat -> nat -> nat -> list nat := fun _ _ _ => [0; 1].
Definition demo_occ_randperm : nat -> nat -> list nat := fun _ _ => [0; 1].
Definition demo_occ_forward (net : nat) (b_coords : list nat) : tensor :=
  (fun c => [if (net =? 0)%nat then (2 # 5)%Q
             else if (c =? 0)%nat then (3 # 5)%Q else 2%Q]) <$> b_coords.

(** Two epochs of the occupancy script on that volume, logging off. *)
Definition demo_occ_epochs (k : nat) : Occupancy.state nat * result unit :=
  Occupancy.epochs demo_occ_forward demo_optim_step demo_occ_randperm false tracker_up
    demo_get_coords 2 2 1 1 2 demo_volume k 0.
Definition demo_occ_state (k : nat) : Occupancy.state nat :=
  Occupancy.state_after demo_occ_forward demo_optim_step demo_occ_randperm false
    tracker_up demo_get_coords 2 2 1 1 2 demo_volume k 0.
Definition demo_occ_iou (e : nat) : Q :=
  Occupancy.iou_of_epoch demo_occ_forward demo_optim_step demo_occ_randperm false
    tracker_up demo_get_coords 2 2 1 1 2 demo_volume e 0.
Definition demo_occ_lossval (e : nat) : option Q :=
  Occupancy.lossval_of_epoch demo_occ_forward demo_optim_step demo_occ_randperm false
    tracker_up demo_get_coords 2 2 1 1 2 demo_volume e 0.
Definition demo_occ_overwritten (e : nat) : bool :=
  Occupancy.overwritten demo_occ_forward demo_optim_step demo_occ_randperm false
    tracker_up demo_get_coords 2 2 1 1 2 demo_volume e 0.

(** A 2 x 2 x 2 hypercube that is occupied everywhere, as [im / im.max()]
    leaves it. *)
Definition demo_cube : volume :=
  [[[1%Q; 1%Q]; [1%Q; 1%Q]]; [[1%Q; 1%Q]; [1%Q; 1%Q]]].

(** The image script on the three-pixel image, with a budget of two epochs. *)
Definition demo_image_main (wandb_log : bool) (wandb : tracker) : Image.outcome nat :=
  Image.main demo_forward demo_optim_step demo_randperm wandb_log wandb
    1 3 demo_coords demo_gt demo_gt_noisy 2 2 0.

(** Two epochs of the image script on the three-pixel image, logging on and
    the tracker reachable. *)
Definition demo_image_epochs (k : nat) : Image.state nat * result unit :=
  Image.epochs demo_forward demo_optim_step demo_randperm true tracker_up
    1 3 demo_coords demo_gt demo_gt_noisy 2 2 k 0.
Definition demo_image_state (k : nat) : Image.state nat :=
  Image.state_after demo_forward demo_optim_step demo_randperm true tracker_up
    1 3 demo_coords demo_gt demo_gt_noisy 2 2 k 0.
Definition demo_image_mse (e : nat) : Q :=
  Image.mse_of_epoch demo_forward demo_optim_step demo_randperm true tracker_up
    1 3 demo_coords demo_gt demo_gt_noisy 2 2 e 0.



(** A three-voxel volume of shape (1, 1, 3) (already cropped), trained on in
    minibatches of two: the second minibatch holds one voxel. *)
Definition demo_row : volume := [[[1%Q; 0%Q; 1%Q]]].
Definition demo_row_epoch (s : Occupancy.state nat) : Occupancy.state nat * result unit :=
  Occupancy.epoch_body demo_forward demo_optim_step demo_randperm false tracker_up
    (fun _ _ _ => demo_coords) 2 1 1 3 demo_row 0 s.
Definition demo_row_init : Occupancy.state nat := Occupancy.init 2 1 1 3 0.
(** * Properties *)

(** ** Scalars *)

Lemma Qltb_lt (a b : Q) : Qltb a b = true <-> (a < b)%Q.
Proof.
  unfold Qltb. rewrite negb_true_iff. split.
  - intros Hb. apply Qnot_le_lt. intros Hle.
    apply Qle_bool_iff in Hle. congruence.
  - intros Hlt. destruct (Qle_bool b a) eqn:E; [|reflexivity].
    apply Qle_bool_iff in E. exfalso. exact (Qlt_not_le _ _ Hlt E).
Qed.

Lemma Qltb_ge (a b : Q) : Qltb a b = false <-> (b <= a)%Q.
Proof.
  unfold Qltb. rewrite negb_false_iff. apply Qle_bool_iff.
Qed.

(** ** Loops *)

Lemma for_each_app {A S} (body : A -> S -> S * result unit) (l1 l2 : list A) (s : S) :
  for_each body (l1 ++ l2) s =
  match for_each body l1 s with
  | (s', Ok _) => for_each body l2 s'
  | (s', Raise e) => (s', Raise e)
  end.
Proof.
  revert s. induction l1 as [|a l1 IH]; intros s; simpl; [reflexivity|].
  destruct (body a s) as [s' [u|e]]; [apply IH | reflexivity].
Qed.

Lemma for_each_snoc_ok {A S} (body : A -> S -> S * result unit) (l : list A) (a : A)
    (s s2 : S) :
  for_each body (l ++ [a]) s = (s2, Ok tt) <->
  exists s1, for_each body l s = (s1, Ok tt) /\ body a s1 = (s2, Ok tt).
Proof.
  rewrite for_each_app. split.
  - destruct (for_each body l s) as [s1 [[]|e]]; simpl; [|discriminate].
    destruct (body a s1) as [s' [[]|e]] eqn:Hb; [|discriminate].
    intros Heq. exists s1. split; [reflexivity|]. congruence.
  - intros (s1 & -> & Hb). simpl. rewrite Hb. reflexivity.
Qed.

(** ** Batching *)

Lemma range_from_seq (fuel start stop step : nat) :
  0 < step -> stop <= start + fuel * step ->
  range_from fuel start stop step =
  (fun k => start + k * step) <$> seq 0 ((stop - start + step - 1) / step).
Proof.
  revert start. induction fuel as [|fuel IH]; intros start Hs Hf; simpl.
  - replace (stop - start + step - 1) with (step - 1) by lia.
    rewrite Nat.div_small by lia. reflexivity.
  - destruct (Nat.ltb_spec start stop) as [Hlt|Hge].
    + rewrite IH by lia.
      assert ((stop - start + step - 1) / step
              = S ((stop - (start + step) + step - 1) / step)) as ->.
      { destruct (Nat.le_gt_cases (start + step) stop) as [Hle|Hgt].
        - replace (stop - start + step - 1)
            with ((stop - (start + step) + step - 1) + 1 * step) by lia.
          rewrite Nat.div_add by lia. lia.
        - replace (stop - (start + step) + step - 1) with (step - 1) by lia.
          rewrite (Nat.div_small (step - 1)) by lia.
          replace (stop - start + step - 1) with ((stop - start - 1) + 1 * step) by lia.
          rewrite Nat.div_add by lia. rewrite Nat.div_small by lia. reflexivity. }
      simpl. f_equal; [lia|].
      rewrite <- fmap_S_seq, <- list_fmap_compose.
      apply list_fmap_ext. intros _ k _. simpl. lia.
    + replace (stop - start + step - 1) with (step - 1) by lia.
      rewrite Nat.div_small by lia. reflexivity.
Qed.

(** The minibatches in closed form: chunk [k] is the next [maxpoints]
    entries of the permutation from position [k * maxpoints]. *)
Lemma minibatches_chunks (n maxpoints : nat) (indices : list nat) :
  0 < maxpoints -> length indices = n ->
  minibatches n maxpoints indices =
  Ok ((fun k => take maxpoints (drop (k * maxpoints) indices))
        <$> seq 0 ((n + maxpoints - 1) / maxpoints)).
Proof.
  intros Hm Hlen. unfold minibatches, py_range.
  destruct (Nat.eqb_spec maxpoints 0) as [->|_]; [lia|].
  rewrite range_from_seq by nia.
  rewrite Nat.sub_0_r, <- list_fmap_compose. f_equal.
  apply list_fmap_ext. intros _ k _. simpl. unfold slice.
  destruct (Nat.le_gt_cases (k * maxpoints + maxpoints) n) as [Hle|Hgt].
  - rewrite Nat.min_r by lia. f_equal. lia.
  - rewrite Nat.min_l by lia.
    rewrite !take_ge; [reflexivity | rewrite length_drop; lia | rewrite length_drop; lia].
Qed.

Lemma concat_chunks {A} (c bs : nat) (l : list A) :
  length l <= c * bs ->
  concat ((fun k => take bs (drop (k * bs) l)) <$> seq 0 c) = l.
Proof.
  revert l. induction c as [|c IH]; intros l Hlen.
  - destruct l; [reflexivity | simpl in Hlen; lia].
  - simpl. rewrite <- fmap_S_seq, <- list_fmap_compose.
    rewrite drop_0. rewrite <- (take_drop bs l) at 2. f_equal.
    rewrite <- (IH (drop bs l)) at 1 by (rewrite length_drop; lia).
    f_equal. apply list_fmap_ext. intros _ k _. simpl.
    rewrite drop_drop. reflexivity.
Qed.

Lemma ceil_div_bound (n bs : nat) : 0 < bs -> n <= (n + bs - 1) / bs * bs.
Proof.
  intros Hbs.
  pose proof (Nat.div_mod (n + bs - 1) bs ltac:(lia)) as Hdm.
  pose proof (Nat.mod_upper_bound (n + bs - 1) bs ltac:(lia)). nia.
Qed.

Lemma ceil_div_last (n bs : nat) :
  0 < bs -> 0 < n -> ((n + bs - 1) / bs - 1) * bs < n.
Proof.
  intros Hbs Hn.
  pose proof (Nat.div_mod (n + bs - 1) bs ltac:(lia)) as Hdm.
  pose proof (Nat.mod_upper_bound (n + bs - 1) bs ltac:(lia)). nia.
Qed.

(** In a duplicate-free concatenation an element lies in one part only. *)
Lemma NoDup_concat_unique {A} (ls : list (list A)) (x : A) (k1 k2 : nat) (b1 b2 : list A) :
  NoDup (concat ls) ->
  ls !! k1 = Some b1 -> ls !! k2 = Some b2 -> x ∈ b1 -> x ∈ b2 -> k1 = k2.
Proof.
  revert k1 k2. induction ls as [|l ls IH]; intros k1 k2 Hnd H1 H2 Hx1 Hx2.
  - discriminate.
  - simpl in Hnd. apply NoDup_app in Hnd as (Hl & Hdisj & Hrest).
    assert (Hin : forall k b, ls !! k = Some b -> x ∈ b -> x ∈ concat ls).
    { intros k b Hk Hb. apply list_elem_of_In, in_concat. exists b.
      split; apply list_elem_of_In; [|exact Hb].
      apply list_elem_of_lookup. eauto. }
    destruct k1 as [|k1], k2 as [|k2]; simpl in H1, H2.
    + reflexivity.
    + injection H1 as <-. exfalso. eapply Hdisj; eauto.
    + injection H2 as <-. exfalso. eapply Hdisj; eauto.
    + f_equal. eapply IH; eauto.
Qed.

(** C4. In every epoch the permutation drawn by [torch.randperm] is cut into
    contiguous chunks, in order: the minibatches concatenate back to the
    permutation, every sample index lies in exactly one minibatch, every
    minibatch has between 1 and [maxpoints] indices, every minibatch but the
    last has exactly [maxpoints], and the last holds the unpadded remainder
    when [maxpoints] does not divide the sample count. *)
Theorem minibatches_partition (randperm : nat -> nat -> list nat) (n maxpoints epoch : nat) :
  0 < maxpoints ->
  (forall e, randperm e n ≡ₚ seq 0 n) ->
  exists batches,
    minibatches n maxpoints (randperm epoch n) = Ok batches /\
    concat batches = randperm epoch n /\
    NoDup (concat batches) /\
    (forall i, i < n ->
       exists k b, batches !! k = Some b /\ i ∈ b /\
         forall k' b', batches !! k' = Some b' -> i ∈ b' -> k' = k) /\
    length batches = (n + maxpoints - 1) / maxpoints /\
    Forall (fun b => 0 < length b <= maxpoints) batches /\
    (forall k b, batches !! k = Some b -> S k < length batches ->
       length b = maxpoints) /\
    (forall b, last batches = Some b ->
       length b = if n mod maxpoints =? 0 then maxpoints else n mod maxpoints).
Proof.
  intros Hm Hperm.
  set (idx := randperm epoch n).
  assert (Hlen : length idx = n).
  { unfold idx. rewrite (Permutation_length (Hperm epoch)). apply length_seq. }
  assert (Hnd : NoDup idx).
  { unfold idx. rewrite (Hperm epoch). apply NoDup_seq. }
  set (c := (n + maxpoints - 1) / maxpoints).
  pose proof (ceil_div_bound n maxpoints Hm) as Hub. fold c in Hub.
  assert (Hcat : concat ((fun k => take maxpoints (drop (k * maxpoints) idx)) <$> seq 0 c) = idx).
  { apply concat_chunks. lia. }
  assert (Hlook : forall k b,
    ((fun k => take maxpoints (drop (k * maxpoints) idx)) <$> seq 0 c) !! k = Some b ->
    k < c /\ k * maxpoints < n /\ length b = Nat.min maxpoints (n - k * maxpoints)).
  { intros k b Hk. rewrite list_lookup_fmap in Hk.
    destruct (seq 0 c !! k) as [k'|] eqn:Hs; [|discriminate].
    apply lookup_seq in Hs as [-> Hkc]. simpl in Hk. injection Hk as <-.
    rewrite length_take, length_drop, Hlen.
    split; [exact Hkc|]. split; [|reflexivity].
    assert (0 < n) by (destruct n; [unfold c in Hkc; simpl in Hkc;
      rewrite Nat.div_small in Hkc by lia; lia | lia]).
    pose proof (ceil_div_last n maxpoints Hm ltac:(lia)) as Hl. fold c in Hl.
    assert (k * maxpoints <= (c - 1) * maxpoints) by (apply Nat.mul_le_mono_r; lia).
    lia. }
  eexists. split; [apply minibatches_chunks; assumption|]. fold c.
  split; [exact Hcat|]. split; [rewrite Hcat; exact Hnd|].
  split.
  { intros i Hi.
    assert (Hin : In i (concat ((fun k => take maxpoints (drop (k * maxpoints) idx)) <$> seq 0 c))).
    { rewrite Hcat. apply list_elem_of_In. unfold idx. rewrite (Hperm epoch).
      apply elem_of_seq. lia. }
    apply in_concat in Hin as (b & Hb & Hib).
    apply list_elem_of_In, list_elem_of_lookup in Hb as [k Hk].
    exists k, b. split; [exact Hk|]. split; [apply list_elem_of_In; exact Hib|].
    intros k' b' Hk' Hib'.
    eapply NoDup_concat_unique; [rewrite Hcat; exact Hnd | exact Hk' | exact Hk | exact Hib' |].
    apply list_elem_of_In; exact Hib. }
  split; [rewrite length_fmap, length_seq; reflexivity|].
  split.
  { apply Forall_lookup. intros k b Hk. apply Hlook in Hk as (_ & Hkn & ->). lia. }
  split.
  { intros k b Hk Hlt. rewrite length_fmap, length_seq in Hlt.
    apply Hlook in Hk as (_ & _ & ->).
    assert (0 < n) by (destruct n; [unfold c in Hlt; simpl in Hlt;
      rewrite Nat.div_small in Hlt by lia; lia | lia]).
    pose proof (ceil_div_last n maxpoints Hm ltac:(lia)) as Hl. fold c in Hl.
    assert (S k * maxpoints <= (c - 1) * maxpoints) by (apply Nat.mul_le_mono_r; lia).
    lia. }
  intros b Hb. rewrite last_lookup, length_fmap, length_seq in Hb.
  apply Hlook in Hb as (Hkc & Hkn & ->).
  pose proof (Nat.div_mod n maxpoints ltac:(lia)) as Hdm.
  pose proof (Nat.mod_upper_bound n maxpoints ltac:(lia)) as Hmod.
  pose proof (Nat.div_mod (n + maxpoints - 1) maxpoints ltac:(lia)) as Hdc.
  pose proof (Nat.mod_upper_bound (n + maxpoints - 1) maxpoints ltac:(lia)) as Hmc.
  fold c in Hdc.
  destruct (Nat.eqb_spec (n mod maxpoints) 0) as [Hz|Hnz].
  - rewrite Hz in Hdm.
    assert (Hc : c = n / maxpoints) by nia.
    rewrite Hc in *. destruct (n / maxpoints) as [|q]; [lia|].
    replace (S q - 1) with q by lia. nia.
  - assert (Hc : c = S (n / maxpoints)) by nia.
    rewrite Hc. replace (S (n / maxpoints) - 1) with (n / maxpoints) by lia. nia.
Qed.

Lemma minibatches_partition_witness :
  exists batches,
    minibatches 5 2 (demo_perm 0 5) = Ok batches /\
    concat batches = demo_perm 0 5 /\
    length batches = 3 /\
    (forall b, last batches = Some b -> length b = 1).
Proof.
  assert (Hperm : forall e, demo_perm e 5 ≡ₚ seq 0 5).
  { intros e. apply (bool_decide_unpack _). vm_compute. exact I. }
  destruct (minibatches_partition demo_perm 5 2 0 ltac:(lia) Hperm)
    as (batches & Hb & Hcat & _ & _ & Hlen & _ & _ & Hlast).
  exists batches. repeat split; assumption.
Defined.

(** ** The Reconstruction Buffer *)

Lemma scatter_length {A} (buf : list A) (idx : list nat) (vals : list A) :
  length (scatter buf idx vals) = length buf.
Proof.
  unfold scatter. revert buf vals.
  induction idx as [|i idx IH]; intros buf vals; [reflexivity|].
  destruct vals as [|v vals]; [reflexivity|].
  simpl. rewrite IH. apply length_insert.
Qed.

(** Positions outside [idx] keep their entry. *)
Lemma scatter_lookup_notin {A} (buf : list A) (idx : list nat) (vals : list A) (i : nat) :
  i ∉ idx -> scatter buf idx vals !! i = buf !! i.
Proof.
  unfold scatter. revert buf vals.
  induction idx as [|j idx IH]; intros buf vals Hi; [reflexivity|].
  destruct vals as [|v vals]; [reflexivity|].
  apply not_elem_of_cons in Hi as [Hne Hi].
  simpl. rewrite IH by exact Hi. apply list_lookup_insert_ne. congruence.
Qed.

(** The position listed [k]-th receives the [k]-th value. *)
Lemma scatter_lookup_in {A} (buf : list A) (idx : list nat) (vals : list A) (k i : nat) :
  NoDup idx -> length vals = length idx -> i < length buf ->
  idx !! k = Some i -> scatter buf idx vals !! i = vals !! k.
Proof.
  unfold scatter. revert buf vals k.
  induction idx as [|j idx IH]; intros buf vals k Hnd Hlen Hi Hk; [discriminate|].
  destruct vals as [|v vals]; [discriminate|].
  apply NoDup_cons in Hnd as [Hj Hnd]. simpl in Hlen.
  destruct k as [|k]; simpl in Hk |- *.
  - injection Hk as ->.
    change (scatter (<[i:=v]> buf) idx vals !! i = Some v).
    rewrite scatter_lookup_notin by exact Hj.
    apply list_lookup_insert_eq. exact Hi.
  - apply IH; [exact Hnd | lia | rewrite length_insert; exact Hi | exact Hk].
Qed.

Section MinibatchFacts.
Context {Coord Net : Type} `{Coord_inhabited : Inhabited Coord}.
Variable forward : Net -> list Coord -> tensor.
Variable optim_step : Net -> nat -> list Coord -> tensor -> Net.
Variable coords : list Coord.
Variable targets : tensor.
Variable last_epoch : nat.


End MinibatchFacts.


(** ** The minibatch loop of the occupancy script *)

Lemma squeeze_column_spec (out : tensor) :
  squeeze_column out = if decide (length out = 1) then Raise IndexError else Ok out.
Proof. destruct out as [|p [|q out]]; reflexivity. Qed.

(** The sizes of the minibatches: [maxpoints], or the remainder for the
    last one. *)
Lemma minibatches_lengths (n maxpoints : nat) (indices : list nat)
    (batches : list (list nat)) (b : list nat) :
  0 < maxpoints -> length indices = n ->
  minibatches n maxpoints indices = Ok batches -> b ∈ batches ->
  length b = maxpoints \/ (length b = n mod maxpoints /\ n mod maxpoints <> 0).
Proof.
  intros Hm Hlen Hb Hin. rewrite minibatches_chunks in Hb by assumption.
  injection Hb as <-.
  apply list_elem_of_fmap in Hin as (k & -> & Hk). apply elem_of_seq in Hk.
  rewrite length_take, length_drop, Hlen.
  pose proof (Nat.div_mod (n + maxpoints - 1) maxpoints ltac:(lia)) as Hdm.
  pose proof (Nat.mod_upper_bound (n + maxpoints - 1) maxpoints ltac:(lia)) as Hub.
  assert (Hkn : k * maxpoints < n) by nia.
  destruct (Nat.le_gt_cases maxpoints (n - k * maxpoints)) as [Hle|Hgt]; [left; lia|].
  right.
  assert (Hr : n mod maxpoints = n - k * maxpoints).
  { symmetry. apply (Nat.mod_unique n maxpoints k); lia. }
  lia.
Qed.

(** An epoch has a minibatch of one sample when the batch size is one or
    leaves a remainder of one. *)
Lemma minibatches_single (n maxpoints : nat) (indices : list nat) :
  0 < maxpoints -> 0 < n -> length indices = n ->
  maxpoints = 1 \/ n mod maxpoints = 1 ->
  exists batches b, minibatches n maxpoints indices = Ok batches /\
    b ∈ batches /\ length b = 1.
Proof.
  intros Hm Hn Hlen Hone. rewrite minibatches_chunks by assumption.
  eexists. exists (take maxpoints (drop ((n - 1) / maxpoints * maxpoints) indices)).
  split; [reflexivity|].
  pose proof (Nat.div_mod (n - 1) maxpoints ltac:(lia)) as Hdm.
  pose proof (Nat.mod_upper_bound (n - 1) maxpoints ltac:(lia)) as Hub.
  assert (Hrem : (n - 1) mod maxpoints = 0).
  { destruct Hone as [->|Hone]; [apply Nat.mod_1_r|].
    pose proof (Nat.div_mod n maxpoints ltac:(lia)) as Hdn.
    symmetry. apply (Nat.mod_unique (n - 1) maxpoints (n / maxpoints)); lia. }
  split.
  - apply (list_elem_of_fmap_2 (fun k => take maxpoints (drop (k * maxpoints) indices))).
    apply elem_of_seq. split; [lia|]. simpl.
    apply Nat.Div0.div_lt_upper_bound.
    pose proof (Nat.div_mod (n + maxpoints - 1) maxpoints ltac:(lia)) as Hdm2.
    pose proof (Nat.mod_upper_bound (n + maxpoints - 1) maxpoints ltac:(lia)) as Hub2.
    nia.
  - rewrite length_take, length_drop, Hlen. nia.
Qed.

Section OccupancyLoop.
Context {Coord Net : Type} `{Coord_inhabited : Inhabited Coord}.
Variable forward : Net -> list Coord -> tensor.
Variable optim_step : Net -> nat -> list Coord -> tensor -> Net.
Variable coords : list Coord.
Variable targets : tensor.
Variable last_epoch : nat.

Local Abbreviation step := (minibatch forward optim_step coords targets last_epoch).
Local Abbreviation occ_step :=
  (occupancy_minibatch forward optim_step coords targets last_epoch).

(** A minibatch of the occupancy script either raises [IndexError], on a
    prediction of one row and before anything is done, or does what a
    minibatch of the image script does. *)
Lemma occupancy_minibatch_spec (b : list nat) (s : loop_state Net) :
  occ_step b s
  = if decide (length (forward (l_net s) (gather coords b)) = 1)
    then (s, Raise IndexError) else (step s b, Ok tt).
Proof.
  unfold occupancy_minibatch, minibatch. rewrite squeeze_column_spec.
  destruct (decide _); reflexivity.
Qed.

(** A minibatch loop that ends without exception is the fold of the
    minibatch body. *)
Lemma occupancy_loop_ok (batches : list (list nat)) (s s' : loop_state Net) (u : unit) :
  for_each occ_step batches s = (s', Ok u) -> s' = foldl step s batches.
Proof.
  revert s. induction batches as [|b batches IH]; intros s Hrun; simpl in Hrun |- *.
  - congruence.
  - rewrite occupancy_minibatch_spec in Hrun.
    destruct (decide _); [discriminate|]. apply IH. exact Hrun.
Qed.

(** The loop raises nothing but [IndexError], on a minibatch whose
    prediction has one row. *)
Lemma occupancy_loop_raises (batches : list (list nat)) (s s' : loop_state Net) (e : exn) :
  for_each occ_step batches s = (s', Raise e) ->
  e = IndexError /\
  exists b, b ∈ batches /\ length (forward (l_net s') (gather coords b)) = 1.
Proof.
  revert s. induction batches as [|b batches IH]; intros s Hrun; simpl in Hrun.
  - discriminate.
  - rewrite occupancy_minibatch_spec in Hrun.
    destruct (decide _) as [Hone|_].
    + injection Hrun as <- <-. split; [reflexivity|].
      exists b. split; [apply list_elem_of_here | exact Hone].
    + destruct (IH _ Hrun) as (-> & b' & Hin & Hone). split; [reflexivity|].
      exists b'. split; [apply list_elem_of_further; exact Hin | exact Hone].
Qed.

(** The model returns one pixel for each coordinate. *)
Hypothesis forward_length : forall net b_coords,
  length (forward net b_coords) = length b_coords.

Lemma forward_length_gather (net : Net) (b : list nat) :
  length (forward net (gather coords b)) = length b.
Proof. rewrite forward_length. apply length_fmap. Qed.


Lemma occupancy_loop_index_error (batches : list (list nat)) (b : list nat)
    (s : loop_state Net) :
  b ∈ batches -> length b = 1 ->
  exists s', for_each occ_step batches s = (s', Raise IndexError).
Proof.
  intros Hin Hone. revert s.
  induction batches as [|b0 batches IH]; intros s; [inversion Hin|].
  simpl. rewrite occupancy_minibatch_spec, forward_length_gather.
  destruct (decide (length b0 = 1)) as [_|Hne]; [eauto|].
  apply IH. apply elem_of_cons in Hin as [->|Hin]; [contradiction | exact Hin].
Qed.

End OccupancyLoop.
(** ** The epoch loss *)

Section EpochLoss.
Context {Coord Net : Type} `{Coord_inhabited : Inhabited Coord}.
Variable forward : Net -> list Coord -> tensor.
Variable optim_step : Net -> nat -> list Coord -> tensor -> Net.

Lemma batch_losses_length (coords : list Coord) (targets : tensor) (last_epoch : nat)
    (net : Net) (batches : list (list nat)) :
  length (batch_losses forward optim_step coords targets last_epoch net batches)
  = length batches.
Proof.
  revert net. induction batches as [|b batches IH]; intros net; simpl; [reflexivity|].
  rewrite IH. reflexivity.
Qed.

(** The loop invariant of the minibatch loop: [cnt] counts the minibatches
    and [train_loss] is the sum of their losses. *)
Lemma minibatch_loop_totals (coords : list Coord) (targets : tensor) (last_epoch : nat)
    (batches : list (list nat)) (s : loop_state Net) :
  let l := foldl (minibatch forward optim_step coords targets last_epoch) s batches in
  cnt l = cnt s + length batches /\
  (train_loss l ==
   train_loss s
   + Qsum (batch_losses forward optim_step coords targets last_epoch (l_net s) batches))%Q.
Proof.
  revert s. induction batches as [|b batches IH]; intros s; simpl.
  - split; [lia|]. unfold Qsum. simpl. ring.
  - destruct (IH (minibatch forward optim_step coords targets last_epoch s b))
      as [Hc Ht].
    split; [rewrite Hc; simpl; lia|].
    rewrite Ht. simpl. unfold Qsum. simpl. ring.
Qed.

Lemma minibatch_loop_mean (coords : list Coord) (targets : tensor) (last_epoch : nat)
    (batches : list (list nat)) (net : Net) (buf : tensor) (ls : option Q) :
  let l := foldl (minibatch forward optim_step coords targets last_epoch)
             {| l_net := net; l_buf := buf; train_loss := 0%Q; cnt := 0; loss := ls |}
             batches in
  (train_loss l / inject_Z (Z.of_nat (cnt l)) ==
   mean (batch_losses forward optim_step coords targets last_epoch net batches))%Q.
Proof.
  intros l.
  destruct (minibatch_loop_totals coords targets last_epoch batches
              {| l_net := net; l_buf := buf; train_loss := 0%Q; cnt := 0; loss := ls |})
    as [Hc Ht].
  fold l in Hc, Ht. simpl in Hc, Ht.
  unfold mean. rewrite batch_losses_length, Hc, Ht. simpl.
  rewrite Qplus_0_l. reflexivity.
Qed.

(** C7, as the code has it. The mean of the mean squared-error losses of an
    epoch's minibatches, each counted once whatever its size, is
    [train_loss / cnt]: an epoch that completes reports it through [xp.log]
    when logging is on, and records it nowhere when logging is off. The
    history the scripts keep and save holds other quantities:
    [mse_loss_array[epoch]] and [mse_array[epoch]] of the image script are
    the mean squared errors of the whole Reconstruction Buffer against the
    noisy observation and against the ground truth, and [mse_array[idx]] of
    the occupancy script is the IoU. *)
Theorem epoch_loss_is_logged_not_saved
    (randperm : nat -> nat -> list nat) (wandb_log : bool) (wandb : tracker)
    (get_coords : nat -> nat -> nat -> list Coord)
    (H W T : nat) (coords : list Coord) (gt gt_noisy : tensor) (im : volume)
    (maxpoints epoch : nat) :
  (forall s s',
     Image.epoch_body forward optim_step randperm wandb_log wandb H W coords gt
       gt_noisy maxpoints epoch s = (s', Ok tt) ->
     exists batches,
       minibatches (H * W) maxpoints (randperm epoch (H * W)) = Ok batches /\
       (wandb_log = true ->
          exists entry, Image.xp_history s' = Image.xp_history s ++ [entry] /\
            (log_loss entry ==
             mean (batch_losses forward optim_step coords gt_noisy (Image.last_epoch s)
                     (Image.net s) batches))%Q) /\
       (wandb_log = false -> Image.xp_history s' = Image.xp_history s) /\
       Image.mse_loss_array s'
       = <[epoch := mse gt_noisy (Image.rec s')]> (Image.mse_loss_array s) /\
       Image.mse_array s' = <[epoch := mse gt (Image.rec s')]> (Image.mse_array s)) /\
  (forall s s',
     Occupancy.epoch_body forward optim_step randperm wandb_log wandb get_coords
       maxpoints H W T im epoch s = (s', Ok tt) ->
     exists batches,
       minibatches (H * W * T) (Occupancy.batch_size maxpoints H W T)
         (randperm epoch (H * W * T)) = Ok batches /\
       (wandb_log = true ->
          exists entry, Occupancy.xp_history s' = Occupancy.xp_history s ++ [entry] /\
            (log_loss entry ==
             mean (batch_losses forward optim_step (Occupancy.coords get_coords H W T)
                     (Occupancy.imten im) (Occupancy.last_epoch s) (Occupancy.net s)
                     batches))%Q) /\
       (wandb_log = false -> Occupancy.xp_history s' = Occupancy.xp_history s) /\
       Occupancy.mse_array s'
       = <[epoch := get_IoU (Occupancy.im_estim s') (Occupancy.imten im)
                      Occupancy.mcubes_thres]> (Occupancy.mse_array s)).
Proof.
  split.
  - intros s s' Hstep. unfold Image.epoch_body in Hstep.
    destruct (minibatches (H * W) maxpoints (randperm epoch (H * W)))
      as [batches|e]; [|discriminate].
    exists batches. split; [reflexivity|].
    unfold xp_log in Hstep.
    match type of Hstep with context [foldl ?f ?i batches] => set (l := foldl f i batches) in * end.
    destruct wandb_log.
    + destruct (cnt l =? 0); [discriminate|].
      destruct (log_ok wandb epoch); [|discriminate].
      injection Hstep as <-. simpl.
      split; [|split; [discriminate | split; reflexivity]].
      intros _. eexists. split; [reflexivity|]. simpl. apply minibatch_loop_mean.
    + injection Hstep as <-. simpl.
      split; [discriminate | split; [reflexivity | split; reflexivity]].
  - intros s s' Hstep. unfold Occupancy.epoch_body in Hstep.
    destruct (minibatches (H * W * T) (Occupancy.batch_size maxpoints H W T)
                (randperm epoch (H * W * T))) as [batches|e]; [|discriminate].
    exists batches. split; [reflexivity|].
    destruct (for_each _ batches _) as [l [u|e]] eqn:Hloop; [|discriminate].
    apply occupancy_loop_ok in Hloop.
    unfold xp_log, Occupancy.occupancy in Hstep.
    destruct wandb_log.
    + destruct (cnt l =? 0); [discriminate|].
      destruct (log_ok wandb epoch); [|discriminate].
      destruct (loss l) as [lv|]; [|discriminate].
      injection Hstep as <-. simpl.
      split; [|split; [discriminate | reflexivity]].
      intros _. eexists. split; [reflexivity|]. simpl.
      rewrite Hloop. apply minibatch_loop_mean.
    + destruct (loss l) as [lv|]; [|discriminate].
      injection Hstep as <-. simpl.
      split; [discriminate | split; reflexivity].
Qed.

End EpochLoss.

Lemma epoch_loss_is_logged_not_saved_witness :
  let s := demo_image_init in
  let s' := fst (demo_image_epoch true tracker_up 0 s) in
  exists batches,
    minibatches 3 2 (demo_randperm 0 3) = Ok batches /\
    (true = true ->
       exists entry, Image.xp_history s' = Image.xp_history s ++ [entry] /\
         (log_loss entry ==
          mean (batch_losses demo_forward demo_optim_step demo_coords demo_gt_noisy
                  (Image.last_epoch s) (Image.net s) batches))%Q) /\
    (true = false -> Image.xp_history s' = Image.xp_history s) /\
    Image.mse_loss_array s'
    = <[0 := mse demo_gt_noisy (Image.rec s')]> (Image.mse_loss_array s) /\
    Image.mse_array s' = <[0 := mse demo_gt (Image.rec s')]> (Image.mse_array s).
Proof.
  intros s s'.
  apply (proj1 (epoch_loss_is_logged_not_saved demo_forward demo_optim_step
                  demo_randperm true tracker_up (fun _ _ _ => []) 1 3 0 demo_coords
                  demo_gt demo_gt_noisy [] 2 0) s s').
  vm_compute. reflexivity.
Defined.

(** C7 as stated fails. In this epoch of the image script, with minibatches
    of two pixels and of one and logging off, the mean of the minibatch
    losses is 13/4; nothing is logged, and the loss entered in the history
    is 3, the mean squared error of the whole buffer, which weighs a
    minibatch by its size. In the first epoch of the occupancy run the one
    minibatch has loss 13/50 and the history entry is the IoU, 0. *)
Lemma epoch_history_is_not_mean_of_minibatch_losses :
  let r := demo_image_epoch false tracker_up 0 demo_image_init in
  snd r = Ok tt /\
  (exists batches,
     minibatches 3 2 (demo_randperm 0 3) = Ok batches /\
     (mean (batch_losses demo_forward demo_optim_step demo_coords demo_gt_noisy
              0%nat 0%nat batches) == 13 # 4)%Q) /\
  Image.xp_history (fst r) = [] /\
  (exists m, Image.mse_loss_array (fst r) !! 0 = Some m /\ (m == 3)%Q /\ (m < 13 # 4)%Q) /\
  snd (demo_occ_epochs 1) = Ok tt /\
  (exists batches,
     minibatches 2 2 (demo_occ_randperm 0 2) = Ok batches /\
     (mean (batch_losses demo_occ_forward demo_optim_step (demo_get_coords 1 1 2)
              (flatten demo_volume) 0%nat 0%nat batches) == 13 # 50)%Q) /\
  Occupancy.xp_history (demo_occ_state 1) = [] /\
  (exists m, Occupancy.mse_array (demo_occ_state 1) !! 0 = Some m /\ (m == 0)%Q).
Proof.
  intros r. split; [vm_compute; reflexivity|].
  split; [eexists; split; vm_compute; reflexivity|].
  split; [vm_compute; reflexivity|].
  split; [eexists; repeat split; vm_compute; reflexivity|].
  split; [vm_compute; reflexivity|].
  split; [eexists; split; vm_compute; reflexivity|].
  split; [vm_compute; reflexivity|].
  eexists; split; vm_compute; reflexivity.
Qed.

(** With logging on the epoch loss is logged, and the array entry is still
    the other quantity: the logged epoch loss is 13/4 and the array entry
    is 3. *)
Example logged_loss_and_saved_loss_array :
  let s' := fst (demo_image_epoch true tracker_up 0 demo_image_init) in
  exists entry,
    Image.xp_history s' = [entry] /\
    (log_loss entry == 13 # 4)%Q /\
    exists m, Image.mse_loss_array s' !! 0 = Some m /\ (m == 3)%Q.
Proof.
  intros s'. eexists. split; [vm_compute; reflexivity|].
  split; [vm_compute; reflexivity|].
  eexists. split; vm_compute; reflexivity.
Qed.

(** ** Runs of the epoch loop *)

Lemma for_each_seq_S {S} (body : nat -> S -> S * result unit) (k : nat) (s0 s' : S) :
  for_each body (seq 0 (Datatypes.S k)) s0 = (s', Ok tt) <->
  exists s, for_each body (seq 0 k) s0 = (s, Ok tt) /\ body k s = (s', Ok tt).
Proof.
  rewrite seq_S. simpl. apply for_each_snoc_ok.
Qed.

Lemma for_each_seq_prefix {S} (body : nat -> S -> S * result unit) (k e : nat) (s0 s : S) :
  for_each body (seq 0 k) s0 = (s, Ok tt) -> e <= k ->
  exists s_e, for_each body (seq 0 e) s0 = (s_e, Ok tt).
Proof.
  revert s. induction k as [|k IH]; intros s Hrun He.
  - assert (e = 0) as -> by lia. eauto.
  - destruct (decide (e = Datatypes.S k)) as [->|Hne]; [eauto|].
    apply for_each_seq_S in Hrun as (s1 & Hrun & _).
    apply (IH s1 Hrun). lia.
Qed.

Lemma ext_ltb_Fin (a b : Q) : ext_ltb (Fin a) (Fin b) = true <-> (a < b)%Q.
Proof. simpl. apply Qltb_lt. Qed.

(** ** Best Reconstruction in the image script *)

Section ImageBest.
Context {Coord Net : Type} `{Coord_inhabited : Inhabited Coord}.
Variable forward : Net -> list Coord -> tensor.
Variable optim_step : Net -> nat -> list Coord -> tensor -> Net.
Variable randperm : nat -> nat -> list nat.
Variable wandb_log : bool.
Variable wandb : tracker.
Variables H W : nat.
Variable coords : list Coord.
Variables gt gt_noisy : tensor.
Variables niters maxpoints : nat.
Variable net0 : Net.

Local Abbreviation epoch_body :=
  (Image.epoch_body forward optim_step randperm wandb_log wandb H W coords gt gt_noisy
     maxpoints).
Local Abbreviation epochs k :=
  (Image.epochs forward optim_step randperm wandb_log wandb H W coords gt
              gt_noisy niters maxpoints k net0).
Local Abbreviation state_after k :=
  (Image.state_after forward optim_step randperm wandb_log wandb H W coords gt
              gt_noisy niters maxpoints k net0).
Local Abbreviation mse_of_epoch e :=
  (Image.mse_of_epoch forward optim_step randperm wandb_log wandb H W coords gt
              gt_noisy niters maxpoints e net0).
Local Abbreviation overwritten e :=
  (Image.overwritten forward optim_step randperm wandb_log wandb H W coords gt
              gt_noisy niters maxpoints e net0).

(** What a successful epoch does to the best-so-far pair. *)
Lemma image_epoch_best (epoch : nat) (s s' : Image.state Net) :
  epoch_body epoch s = (s', Ok tt) ->
  let m := mse gt (Image.rec s') in
  Image.best_mse s' = (if Image.is_best epoch m (Image.best_mse s)
                       then Fin m else Image.best_mse s) /\
  Image.best_img s' = (if Image.is_best epoch m (Image.best_mse s)
                       then Some (Image.rec s') else Image.best_img s).
Proof.
  unfold Image.epoch_body. intros Hstep.
  destruct (minibatches (H * W) maxpoints (randperm epoch (H * W)))
    as [batches|e]; [|discriminate].
  match type of Hstep with
  | context [match ?c with Ok _ => _ | Raise _ => _ end] => destruct c; [|discriminate]
  end.
  injection Hstep as <-. simpl. split; reflexivity.
Qed.

Lemma image_state_after_S (k : nat) (s' : Image.state Net) :
  epochs (S k) = (s', Ok tt) ->
  exists s, epochs k = (s, Ok tt) /\ epoch_body k s = (s', Ok tt).
Proof. intros Hrun. apply for_each_seq_S in Hrun. exact Hrun. Qed.

(** After [k >= 1] epochs [best_mse] is the least tracked metric so far. *)
Lemma image_best_mse_least (k : nat) (s : Image.state Net) :
  epochs (S k) = (s, Ok tt) ->
  exists j, j <= k /\ Image.best_mse s = Fin (mse_of_epoch j) /\
    forall i, i <= k -> (mse_of_epoch j <= mse_of_epoch i)%Q.
Proof.
  revert s. induction k as [|k IH]; intros s' Hrun.
  - pose proof Hrun as Hrun'.
    apply image_state_after_S in Hrun as (s & Hs & Hstep).
    apply image_epoch_best in Hstep as [Hm _].
    exists 0. split; [lia|].
    unfold Image.mse_of_epoch, Image.state_after. rewrite Hrun'. simpl.
    split.
    + rewrite Hm. unfold Image.is_best. simpl. rewrite orb_true_r. reflexivity.
    + intros i Hi. assert (i = 0) as -> by lia. rewrite Hrun'. simpl. apply Qle_refl.
  - pose proof Hrun as Hrun'.
    apply image_state_after_S in Hrun as (s & Hs & Hstep).
    apply image_epoch_best in Hstep as [Hm _].
    destruct (IH s Hs) as (j & Hj & Hbest & Hleast).
    assert (Hk : mse_of_epoch (S k) = mse gt (Image.rec s')).
    { unfold Image.mse_of_epoch, Image.state_after. rewrite Hrun'. reflexivity. }
    rewrite Hbest in Hm. unfold Image.is_best in Hm. simpl in Hm.
    rewrite orb_false_r in Hm. rewrite <- Hk in Hm.
    destruct (Qltb (mse_of_epoch (S k)) (mse_of_epoch j)) eqn:Hlt.
    + apply Qltb_lt in Hlt. exists (S k). split; [lia|]. split; [exact Hm|].
      intros i Hi. destruct (decide (i = S k)) as [->|Hne]; [apply Qle_refl|].
      apply Qlt_le_weak. eapply Qlt_le_trans; [exact Hlt|]. apply Hleast. lia.
    + apply Qltb_ge in Hlt. exists j. split; [lia|]. split; [exact Hm|].
      intros i Hi. destruct (decide (i = S k)) as [->|Hne]; [exact Hlt|].
      apply Hleast. lia.
Qed.

(** The image half of the rule for Best Reconstruction. *)
Lemma image_best_rule (k e : nat) (s : Image.state Net) :
  epochs k = (s, Ok tt) -> e < k ->
  (overwritten e = true <->
     e = 0 \/ forall j, j < e -> (mse_of_epoch e < mse_of_epoch j)%Q) /\
  (overwritten e = true ->
     Image.best_img (state_after (S e)) = Some (Image.rec (state_after (S e)))) /\
  (overwritten e = false ->
     Image.best_img (state_after (S e)) = Image.best_img (state_after e)).
Proof.
  intros Hrun He.
  destruct (for_each_seq_prefix _ k (S e) _ _ Hrun ltac:(lia)) as (s2 & Hs2).
  pose proof Hs2 as Hs2'.
  apply image_state_after_S in Hs2 as (s1 & Hs1 & Hstep).
  apply image_epoch_best in Hstep as [_ Himg].
  unfold Image.overwritten, Image.mse_of_epoch, Image.state_after.
  unfold Image.epochs in Hs1 |- *.
  rewrite Hs2', Hs1. simpl. simpl in Himg.
  split; [|split].
  - destruct e as [|e].
    + unfold Image.is_best. simpl. rewrite orb_true_r. split; [intros _; left; reflexivity | reflexivity].
    + destruct (image_best_mse_least e s1 Hs1) as (j & Hj & Hbest & Hleast).
      assert (Hm : mse gt (Image.rec s2) = mse_of_epoch (S e)).
      { unfold Image.mse_of_epoch, Image.state_after, Image.epochs.
        rewrite Hs2'. reflexivity. }
      rewrite Hbest. unfold Image.is_best. simpl. rewrite orb_false_r, Hm, Qltb_lt.
      split.
      * intros Hlt. right. intros i Hi.
        eapply Qlt_le_trans; [exact Hlt|]. apply Hleast. lia.
      * intros [Hz|Hall]; [discriminate|]. apply Hall. lia.
  - intros Hb. rewrite Hb in Himg. exact Himg.
  - intros Hb. rewrite Hb in Himg. exact Himg.
Qed.

End ImageBest.

(** ** Best Reconstruction in the occupancy script *)

Section OccupancyBest.
Context {Coord Net : Type} `{Coord_inhabited : Inhabited Coord}.
Variable forward : Net -> list Coord -> tensor.
Variable optim_step : Net -> nat -> list Coord -> tensor -> Net.
Variable randperm : nat -> nat -> list nat.
Variable wandb_log : bool.
Variable wandb : tracker.
Variable get_coords : nat -> nat -> nat -> list Coord.
Variables niters maxpoints : nat.
Variables H W T : nat.
Variable im : volume.
Variable net0 : Net.

Local Abbreviation epoch_body :=
  (Occupancy.epoch_body forward optim_step randperm wandb_log wandb get_coords
     maxpoints H W T im).
Local Abbreviation epochs k :=
  (Occupancy.epochs forward optim_step randperm wandb_log wandb get_coords niters
     maxpoints H W T im k net0).
Local Abbreviation state_after k :=
  (Occupancy.state_after forward optim_step randperm wandb_log wandb get_coords niters
     maxpoints H W T im k net0).
Local Abbreviation lossval_of_epoch e :=
  (Occupancy.lossval_of_epoch forward optim_step randperm wandb_log wandb get_coords
     niters maxpoints H W T im e net0).
Local Abbreviation overwritten e :=
  (Occupancy.overwritten forward optim_step randperm wandb_log wandb get_coords
     niters maxpoints H W T im e net0).

(** What a successful epoch does to the best-so-far pair. *)
Lemma occupancy_epoch_best (idx : nat) (s s' : Occupancy.state Net) :
  epoch_body idx s = (s', Ok tt) ->
  exists lv, Occupancy.lossval s' = Some lv /\
    Occupancy.best_mse s' = (if Occupancy.is_best lv (Occupancy.best_mse s)
                             then Fin lv else Occupancy.best_mse s) /\
    Occupancy.best_img s' = (if Occupancy.is_best lv (Occupancy.best_mse s)
                             then Some (Occupancy.im_estim s')
                             else Occupancy.best_img s).
Proof.
  unfold Occupancy.epoch_body, Occupancy.occupancy. intros Hstep.
  destruct (minibatches (H * W * T) (Occupancy.batch_size maxpoints H W T)
              (randperm idx (H * W * T))) as [batches|e]; [|discriminate].
  destruct (for_each _ batches _) as [l [u|e]]; [|discriminate].
  match type of Hstep with
  | context [match ?c with Ok _ => _ | Raise _ => _ end] => destruct c; [|discriminate]
  end.
  match type of Hstep with
  | context [match ?c with Some _ => _ | None => _ end] =>
      destruct c as [lv|]; [|discriminate]
  end.
  injection Hstep as <-. simpl. exists lv. repeat split.
Qed.

Lemma occupancy_state_after_S (k : nat) (s' : Occupancy.state Net) :
  epochs (S k) = (s', Ok tt) ->
  exists s, epochs k = (s, Ok tt) /\ epoch_body k s = (s', Ok tt).
Proof. intros Hrun. apply for_each_seq_S in Hrun. exact Hrun. Qed.

Lemma occupancy_lossval_of_epoch (k : nat) (s : Occupancy.state Net) :
  epochs (S k) = (s, Ok tt) -> lossval_of_epoch k = Occupancy.lossval s.
Proof.
  intros Hrun. unfold Occupancy.lossval_of_epoch, Occupancy.state_after.
  rewrite Hrun. reflexivity.
Qed.

(** After [k >= 1] epochs [best_mse] is the least last-minibatch loss so far. *)
Lemma occupancy_best_mse_least (k : nat) (s : Occupancy.state Net) :
  epochs (S k) = (s, Ok tt) ->
  exists j lj, j <= k /\ lossval_of_epoch j = Some lj /\
    Occupancy.best_mse s = Fin lj /\
    forall i, i <= k -> exists li, lossval_of_epoch i = Some li /\ (lj <= li)%Q.
Proof.
  revert s. induction k as [|k IH]; intros s' Hrun.
  - pose proof (occupancy_lossval_of_epoch _ _ Hrun) as Hlv.
    apply occupancy_state_after_S in Hrun as (s & Hs & Hstep).
    apply occupancy_epoch_best in Hstep as (lv & Hl & Hm & _).
    injection Hs as <-. simpl in Hm.
    exists 0, lv. split; [lia|]. split; [congruence|]. split; [exact Hm|].
    intros i Hi. assert (i = 0) as -> by lia. exists lv.
    split; [congruence | apply Qle_refl].
  - pose proof (occupancy_lossval_of_epoch _ _ Hrun) as Hlv.
    apply occupancy_state_after_S in Hrun as (s & Hs & Hstep).
    apply occupancy_epoch_best in Hstep as (lv & Hl & Hm & _).
    destruct (IH s Hs) as (j & lj & Hj & Hlj & Hbest & Hleast).
    rewrite Hbest in Hm. unfold Occupancy.is_best in Hm. simpl in Hm.
    rewrite Hl in Hlv.
    destruct (Qltb lv lj) eqn:Hlt.
    + apply Qltb_lt in Hlt. exists (S k), lv. split; [lia|].
      split; [exact Hlv|]. split; [exact Hm|].
      intros i Hi. destruct (decide (i = S k)) as [->|Hne].
      * exists lv. split; [exact Hlv | apply Qle_refl].
      * destruct (Hleast i ltac:(lia)) as (li & Hli & Hle).
        exists li. split; [exact Hli|].
        apply Qlt_le_weak. eapply Qlt_le_trans; [exact Hlt | exact Hle].
    + apply Qltb_ge in Hlt. exists j, lj. split; [lia|].
      split; [exact Hlj|]. split; [exact Hm|].
      intros i Hi. destruct (decide (i = S k)) as [->|Hne].
      * exists lv. split; [exact Hlv | exact Hlt].
      * apply Hleast. lia.
Qed.

(** The occupancy half of the rule for Best Reconstruction. *)
Lemma occupancy_best_rule (k e : nat) (s : Occupancy.state Net) :
  epochs k = (s, Ok tt) -> e < k ->
  exists le, lossval_of_epoch e = Some le /\
    (overwritten e = true <->
       forall j, j < e -> exists lj, lossval_of_epoch j = Some lj /\ (le < lj)%Q) /\
    (overwritten e = true ->
       Occupancy.best_img (state_after (S e))
       = Some (Occupancy.im_estim (state_after (S e)))) /\
    (overwritten e = false ->
       Occupancy.best_img (state_after (S e)) = Occupancy.best_img (state_after e)).
Proof.
  intros Hrun He.
  destruct (for_each_seq_prefix _ k (S e) _ _ Hrun ltac:(lia)) as (s2 & Hs2).
  pose proof (occupancy_lossval_of_epoch e s2 Hs2) as Hlv.
  pose proof Hs2 as Hs2'.
  apply occupancy_state_after_S in Hs2 as (s1 & Hs1 & Hstep).
  apply occupancy_epoch_best in Hstep as (le & Hl & _ & Himg).
  rewrite Hl in Hlv. exists le. split; [exact Hlv|].
  unfold Occupancy.overwritten. rewrite Hlv.
  unfold Occupancy.state_after, Occupancy.epochs in Hs1 |- *.
  rewrite Hs2', Hs1. simpl.
  split; [|split].
  - destruct e as [|e].
    + injection Hs1 as <-. simpl. split; [intros _ j Hj; lia | reflexivity].
    + destruct (occupancy_best_mse_least e s1 Hs1) as (j & lj & Hj & Hlj & Hbest & Hleast).
      rewrite Hbest. unfold Occupancy.is_best. simpl. rewrite Qltb_lt.
      split.
      * intros Hlt i Hi. destruct (Hleast i ltac:(lia)) as (li & Hli & Hle).
        exists li. split; [exact Hli|]. eapply Qlt_le_trans; [exact Hlt | exact Hle].
      * intros Hall. destruct (Hall j ltac:(lia)) as (lj' & Hlj' & Hlt).
        congruence.
  - intros Hb. rewrite Hb in Himg. exact Himg.
  - intros Hb. rewrite Hb in Himg. exact Himg.
Qed.

End OccupancyBest.

(** ** The rule for Best Reconstruction *)

(** C1, as the code has it. In the image script Best Reconstruction is
    overwritten at the end of an epoch exactly when the epoch is the first
    one or its mean squared error against the ground truth is strictly below
    that of every earlier epoch. In the occupancy script it is overwritten
    exactly when the loss of the epoch's last minibatch is strictly below
    that of every earlier epoch, which holds in the first epoch. In both,
    an overwrite stores the Reconstruction Buffer of the epoch, and
    otherwise Best Reconstruction is unchanged. *)
Theorem best_reconstruction_rule {Coord Net : Type} `{Coord_inhabited : Inhabited Coord}
    (forward : Net -> list Coord -> tensor)
    (optim_step : Net -> nat -> list Coord -> tensor -> Net)
    (randperm : nat -> nat -> list nat) (wandb_log : bool) (wandb : tracker)
    (niters maxpoints : nat) (net0 : Net) (k e : nat) :
  (forall H W coords gt gt_noisy s,
     Image.epochs forward optim_step randperm wandb_log wandb H W coords gt gt_noisy
       niters maxpoints k net0 = (s, Ok tt) -> e < k ->
     let state_after := Image.state_after forward optim_step randperm wandb_log wandb
                          H W coords gt gt_noisy niters maxpoints in
     let mse_of_epoch := Image.mse_of_epoch forward optim_step randperm wandb_log wandb
                           H W coords gt gt_noisy niters maxpoints in
     let overwritten := Image.overwritten forward optim_step randperm wandb_log wandb
                          H W coords gt gt_noisy niters maxpoints in
     (overwritten e net0 = true <->
        e = 0 \/ forall j, j < e -> (mse_of_epoch e net0 < mse_of_epoch j net0)%Q) /\
     (overwritten e net0 = true ->
        Image.best_img (state_after (S e) net0)
        = Some (Image.rec (state_after (S e) net0))) /\
     (overwritten e net0 = false ->
        Image.best_img (state_after (S e) net0) = Image.best_img (state_after e net0)))
  /\
  (forall get_coords H W T im s,
     Occupancy.epochs forward optim_step randperm wandb_log wandb get_coords niters
       maxpoints H W T im k net0 = (s, Ok tt) -> e < k ->
     let state_after := Occupancy.state_after forward optim_step randperm wandb_log
                          wandb get_coords niters maxpoints H W T im in
     let lossval_of_epoch := Occupancy.lossval_of_epoch forward optim_step randperm
                               wandb_log wandb get_coords niters maxpoints H W T im in
     let overwritten := Occupancy.overwritten forward optim_step randperm wandb_log
                          wandb get_coords niters maxpoints H W T im in
     exists le, lossval_of_epoch e net0 = Some le /\
       (overwritten e net0 = true <->
          forall j, j < e ->
            exists lj, lossval_of_epoch j net0 = Some lj /\ (le < lj)%Q) /\
       (overwritten e net0 = true ->
          Occupancy.best_img (state_after (S e) net0)
          = Some (Occupancy.im_estim (state_after (S e) net0))) /\
       (overwritten e net0 = false ->
          Occupancy.best_img (state_after (S e) net0)
          = Occupancy.best_img (state_after e net0))).
Proof.
  split.
  - intros H W coords gt gt_noisy s Hrun He. eapply image_best_rule; eassumption.
  - intros get_coords H W T im s Hrun He. eapply occupancy_best_rule; eassumption.
Qed.

Lemma best_reconstruction_rule_witness :
  exists le, demo_occ_lossval 1 = Some le /\
    (demo_occ_overwritten 1 = true <->
       forall j, j < 1 -> exists lj, demo_occ_lossval j = Some lj /\ (le < lj)%Q) /\
    (demo_occ_overwritten 1 = true ->
       Occupancy.best_img (demo_occ_state 2)
       = Some (Occupancy.im_estim (demo_occ_state 2))) /\
    (demo_occ_overwritten 1 = false ->
       Occupancy.best_img (demo_occ_state 2) = Occupancy.best_img (demo_occ_state 1)).
Proof.
  apply (proj2 (best_reconstruction_rule demo_occ_forward demo_optim_step
                  demo_occ_randperm false tracker_up 2 2 0 2 1)
           demo_get_coords 1 1 2 demo_volume (fst (demo_occ_epochs 2))).
  - vm_compute. reflexivity.
  - lia.
Defined.

(** C1 as stated fails in the occupancy script: in the second epoch of this
    run the IoU rises from 0 to 1/2, strictly above every earlier epoch, and
    Best Reconstruction keeps the first epoch's buffer, because the loss of
    the last minibatch did not fall. *)
Lemma best_reconstruction_ignores_iou :
  snd (demo_occ_epochs 2) = Ok tt /\
  (demo_occ_iou 0 == 0)%Q /\ (demo_occ_iou 1 == 1 # 2)%Q /\
  (demo_occ_iou 0 < demo_occ_iou 1)%Q /\
  demo_occ_overwritten 1 = false /\
  Occupancy.best_img (demo_occ_state 2) = Occupancy.best_img (demo_occ_state 1) /\
  Occupancy.best_img (demo_occ_state 2) = Some [[2 # 5]; [2 # 5]]%Q /\
  Occupancy.im_estim (demo_occ_state 2) = [[3 # 5]; [2]]%Q.
Proof.
  repeat split; vm_compute; try reflexivity.
Qed.

(** ** The reported PSNR *)

Lemma ln_pos (x : R) : (1 < x)%R -> (0 < ln x)%R.
Proof.
  intros Hx. rewrite <- ln_1. apply ln_increasing; lra.
Qed.

Lemma psnr_of_mse_1 : psnr_of_mse 1 = 0%R.
Proof.
  unfold psnr_of_mse, log10. rewrite ln_1. unfold Rdiv. ring.
Qed.

Lemma psnr_of_mse_neg (m : R) : (1 < m)%R -> (psnr_of_mse m < 0)%R.
Proof.
  intros Hm. unfold psnr_of_mse, log10.
  assert (0 < ln m / ln 10)%R.
  { apply Rdiv_lt_0_compat; apply ln_pos; lra. }
  lra.
Qed.

(** C2, as the code has it. The PSNR an epoch of the image script reports is
    computed from the mean squared error of the Reconstruction Buffer against
    the clean ground truth; the mean squared error against the noisy
    observation is kept next to it, in [mse_loss_array], and no PSNR is taken
    of it. *)
Theorem reported_psnr_is_against_ground_truth
    {Coord Net : Type} `{Coord_inhabited : Inhabited Coord}
    (forward : Net -> list Coord -> tensor)
    (optim_step : Net -> nat -> list Coord -> tensor -> Net)
    (randperm : nat -> nat -> list nat) (wandb : tracker)
    (H W : nat) (coords : list Coord) (gt gt_noisy : tensor)
    (maxpoints epoch : nat) (s s' : Image.state Net) :
  Image.epoch_body forward optim_step randperm true wandb H W coords gt gt_noisy
    maxpoints epoch s = (s', Ok tt) ->
  (exists entry p,
     Image.xp_history s' = Image.xp_history s ++ [entry] /\
     log_metric entry = Psnr p /\
     dB_value p = psnr_of_mse (Q2R (mse gt (Image.rec s')))) /\
  Image.mse_array s' = <[epoch := mse gt (Image.rec s')]> (Image.mse_array s) /\
  Image.mse_loss_array s'
  = <[epoch := mse gt_noisy (Image.rec s')]> (Image.mse_loss_array s).
Proof.
  unfold Image.epoch_body, xp_log. intros Hstep.
  destruct (minibatches (H * W) maxpoints (randperm epoch (H * W)))
    as [batches|e]; [|discriminate].
  match type of Hstep with context [foldl ?f ?i batches] => set (l := foldl f i batches) in * end.
  destruct (cnt l =? 0); [discriminate|].
  destruct (log_ok wandb epoch); [|discriminate].
  injection Hstep as <-. simpl.
  split; [|split; reflexivity].
  eexists _, _. split; [reflexivity|]. split; reflexivity.
Qed.

Lemma reported_psnr_is_against_ground_truth_witness :
  let s' := fst (demo_image_epoch true tracker_up 0 demo_image_init) in
  (exists entry p,
     Image.xp_history s' = Image.xp_history demo_image_init ++ [entry] /\
     log_metric entry = Psnr p /\
     dB_value p = psnr_of_mse (Q2R (mse demo_gt (Image.rec s')))) /\
  Image.mse_array s'
  = <[0 := mse demo_gt (Image.rec s')]> (Image.mse_array demo_image_init) /\
  Image.mse_loss_array s'
  = <[0 := mse demo_gt_noisy (Image.rec s')]> (Image.mse_loss_array demo_image_init).
Proof.
  intros s'.
  apply (reported_psnr_is_against_ground_truth demo_forward demo_optim_step
           demo_randperm tracker_up 1 3 demo_coords demo_gt demo_gt_noisy 2 0
           demo_image_init s').
  vm_compute. reflexivity.
Defined.

(** C2 as stated fails: in this epoch the reported PSNR is 0 dB, the PSNR of
    the buffer against the ground truth, while the mean squared error against
    the noisy observation is 3, whose PSNR is negative. *)
Lemma reported_psnr_not_against_noisy :
  let s' := fst (demo_image_epoch true tracker_up 0 demo_image_init) in
  exists p,
    log_metric <$> Image.xp_history s' = [Psnr p] /\
    (mse demo_gt (Image.rec s') == 1)%Q /\
    (mse demo_gt_noisy (Image.rec s') == 3)%Q /\
    dB_value p = 0%R /\
    (psnr_of_mse (Q2R (mse demo_gt_noisy (Image.rec s'))) < 0)%R /\
    dB_value p <> psnr_of_mse (Q2R (mse demo_gt_noisy (Image.rec s'))).
Proof.
  intros s'.
  assert (Hgt : (mse demo_gt (Image.rec s') == 1)%Q) by (vm_compute; reflexivity).
  assert (Hnoisy : (mse demo_gt_noisy (Image.rec s') == 3)%Q) by (vm_compute; reflexivity).
  assert (Hneg : (psnr_of_mse (Q2R (mse demo_gt_noisy (Image.rec s'))) < 0)%R).
  { rewrite (Qeq_eqR _ _ Hnoisy). apply psnr_of_mse_neg.
    unfold Q2R. simpl. lra. }
  exists (NegTenLog10 (mse demo_gt (Image.rec s'))).
  assert (Hdb : dB_value (NegTenLog10 (mse demo_gt (Image.rec s'))) = 0%R).
  { change (psnr_of_mse (Q2R (mse demo_gt (Image.rec s'))) = 0%R).
    rewrite (Qeq_eqR _ _ Hgt).
    replace (Q2R 1) with 1%R by (unfold Q2R; simpl; lra). apply psnr_of_mse_1. }
  split; [vm_compute; reflexivity|].
  split; [exact Hgt|]. split; [exact Hnoisy|]. split; [exact Hdb|].
  split; [exact Hneg|]. rewrite Hdb. lra.
Qed.

(** ** The learning rate *)

Lemma Rpower_base_le_1_antitone (d x y : R) :
  (0 < d <= 1)%R -> (x <= y)%R -> (Rpower d y <= Rpower d x)%R.
Proof.
  intros [Hd0 Hd1] Hxy. unfold Rpower.
  assert (Hln : (ln d <= 0)%R).
  { rewrite <- ln_1. destruct Hd1 as [Hlt| ->]; [|lra].
    left. apply ln_increasing; assumption. }
  assert (Hmul : (y * ln d <= x * ln d)%R) by nra.
  destruct Hmul as [Hlt|Heq]; [|rewrite Heq; lra].
  left. apply exp_increasing. exact Hlt.
Qed.

Lemma epoch_fraction_mono (niters e1 e2 : nat) :
  0 < niters -> e1 <= e2 ->
  (Rmin (INR e1 / INR niters) 1 <= Rmin (INR e2 / INR niters) 1)%R.
Proof.
  intros HN He.
  assert (HposN : (0 < INR niters)%R) by (apply lt_0_INR; lia).
  assert (Hle : (INR e1 / INR niters <= INR e2 / INR niters)%R).
  { unfold Rdiv. apply Rmult_le_compat_r; [left; apply Rinv_0_lt_compat; exact HposN|].
    apply le_INR. exact He. }
  apply Rmin_glb.
  - eapply Rle_trans; [apply Rmin_l | exact Hle].
  - apply Rmin_r.
Qed.

Lemma epoch_fraction_full (niters e : nat) :
  0 < niters -> niters <= e -> Rmin (INR e / INR niters) 1 = 1%R.
Proof.
  intros HN He.
  assert (HposN : (0 < INR niters)%R) by (apply lt_0_INR; lia).
  apply Rmin_right.
  apply (Rmult_le_reg_r (INR niters)); [exact HposN|].
  unfold Rdiv. rewrite Rmult_assoc, Rinv_l by lra.
  rewrite Rmult_1_l, Rmult_1_r. apply le_INR. exact He.
Qed.

Lemma lr_lambda_start (d : R) (niters : nat) :
  (0 < d)%R -> lr_lambda d niters 0 = 1%R.
Proof.
  intros Hd. unfold lr_lambda. simpl INR. unfold Rdiv. rewrite Rmult_0_l.
  rewrite Rmin_left by lra. apply Rpower_O. exact Hd.
Qed.

Lemma lr_lambda_floor (d : R) (niters e : nat) :
  (0 < d)%R -> 0 < niters -> niters <= e -> lr_lambda d niters e = d.
Proof.
  intros Hd HN He. unfold lr_lambda. rewrite epoch_fraction_full by assumption.
  apply Rpower_1. exact Hd.
Qed.

Lemma lr_lambda_antitone (d : R) (niters e1 e2 : nat) :
  (0 < d <= 1)%R -> 0 < niters -> e1 <= e2 ->
  (lr_lambda d niters e2 <= lr_lambda d niters e1)%R.
Proof.
  intros Hd HN He. unfold lr_lambda.
  apply Rpower_base_le_1_antitone; [exact Hd|].
  apply epoch_fraction_mono; assumption.
Qed.

(** C3. The multiplier of the learning rate is [d ** min(e / N, 1)]: it is 1
    at epoch 0, it is [d] from epoch [N] on, and it never increases. *)
Theorem lr_multiplier_schedule (d : R) (niters : nat) :
  (0 < d <= 1)%R -> 0 < niters ->
  (forall e, lr_lambda d niters e = Rpower d (Rmin (INR e / INR niters) 1)) /\
  lr_lambda d niters 0 = 1%R /\
  (forall e, niters <= e -> lr_lambda d niters e = d) /\
  (forall e1 e2, e1 <= e2 -> (lr_lambda d niters e2 <= lr_lambda d niters e1)%R).
Proof.
  intros Hd HN. split; [reflexivity|]. split; [|split].
  - apply lr_lambda_start. lra.
  - intros e He. apply lr_lambda_floor; [lra | exact HN | exact He].
  - intros e1 e2 He. apply lr_lambda_antitone; assumption.
Qed.

Lemma lr_multiplier_schedule_witness :
  lr_lambda image_decay image_niters 0 = 1%R /\
  lr_lambda image_decay image_niters 2000 = (1 / 10)%R /\
  (lr_lambda image_decay image_niters 1500 <= lr_lambda image_decay image_niters 500)%R.
Proof.
  assert (Hd : (0 < image_decay <= 1)%R) by (unfold image_decay; lra).
  assert (HN : 0 < image_niters) by (unfold image_niters; lia).
  destruct (lr_multiplier_schedule image_decay image_niters Hd HN)
    as (_ & H0 & Hend & Hmono).
  split; [exact H0|]. split.
  - apply Hend. unfold image_niters. lia.
  - apply Hmono. lia.
Defined.

(** The occupancy script's schedule, with its decay factor 0.2 and its 200
    epochs. *)
Lemma occupancy_lr_multiplier :
  lr_lambda occupancy_decay occupancy_niters 0 = 1%R /\
  (forall e, 200 <= e -> lr_lambda occupancy_decay occupancy_niters e = (2 / 10)%R) /\
  (forall e1 e2, e1 <= e2 ->
     (lr_lambda occupancy_decay occupancy_niters e2
      <= lr_lambda occupancy_decay occupancy_niters e1)%R).
Proof.
  assert (Hd : (0 < occupancy_decay <= 1)%R) by (unfold occupancy_decay; lra).
  assert (HN : 0 < occupancy_niters) by (unfold occupancy_niters; lia).
  split; [apply lr_lambda_start; lra|]. split.
  - intros e He. apply lr_lambda_floor; [lra | exact HN | exact He].
  - intros e1 e2 He. apply lr_lambda_antitone; assumption.
Qed.

(** C10. The image script starts Adam at the configured rate times
    [min(1, maxpoints / (H * W))]: scaled down in proportion for an image
    with more samples than the batch size, unchanged otherwise; the decay
    multiplies this scaled rate. The occupancy script starts at the
    configured rate. *)
Theorem image_initial_lr_scaling (base : R) (maxpoints H W : nat) :
  0 < H * W ->
  image_initial_lr base maxpoints H W
  = (base * Rmin 1 (INR maxpoints / INR (H * W)))%R /\
  (maxpoints < H * W ->
     image_initial_lr base maxpoints H W = (base * (INR maxpoints / INR (H * W)))%R /\
     ((0 < base)%R -> (image_initial_lr base maxpoints H W < base)%R)) /\
  (H * W <= maxpoints -> image_initial_lr base maxpoints H W = base) /\
  (forall epoch,
     image_lr H W epoch
     = (image_initial_lr learning_rate image_maxpoints H W
        * lr_lambda image_decay image_niters epoch)%R) /\
  occupancy_initial_lr base = base /\
  (forall epoch,
     occupancy_lr epoch
     = (learning_rate * lr_lambda occupancy_decay occupancy_niters epoch)%R).
Proof.
  intros Hn.
  assert (Hpos : (0 < INR (H * W))%R) by (apply lt_0_INR; exact Hn).
  split; [reflexivity|]. split; [|split; [|repeat split]].
  - intros Hlt. apply lt_INR in Hlt.
    assert (Hfrac : (INR maxpoints / INR (H * W) < 1)%R).
    { apply (Rmult_lt_reg_r (INR (H * W))); [exact Hpos|].
      unfold Rdiv. rewrite Rmult_assoc, Rinv_l by lra. lra. }
    unfold image_initial_lr. rewrite Rmin_right by lra.
    split; [reflexivity|]. intros Hb. nra.
  - intros Hle. apply le_INR in Hle.
    assert (Hfrac : (1 <= INR maxpoints / INR (H * W))%R).
    { apply (Rmult_le_reg_r (INR (H * W))); [exact Hpos|].
      unfold Rdiv. rewrite Rmult_assoc, Rinv_l by lra. lra. }
    unfold image_initial_lr. rewrite Rmin_left by lra. ring.
Qed.

Lemma image_initial_lr_scaling_witness :
  image_initial_lr learning_rate image_maxpoints 512 512
  = (learning_rate * (INR image_maxpoints / INR (512 * 512)))%R /\
  image_initial_lr learning_rate image_maxpoints 128 128 = learning_rate.
Proof.
  split.
  - apply (image_initial_lr_scaling learning_rate image_maxpoints 512 512).
    + apply Nat.ltb_lt. vm_compute. reflexivity.
    + apply Nat.ltb_lt. vm_compute. reflexivity.
  - apply (image_initial_lr_scaling learning_rate image_maxpoints 128 128).
    + apply Nat.ltb_lt. vm_compute. reflexivity.
    + apply Nat.leb_le. vm_compute. reflexivity.
Defined.

(** ** Intersection over union *)

Lemma zip_with_andb_diag (l : list bool) : zip_with andb l l = l.
Proof.
  induction l as [|b l IH]; simpl; [reflexivity|].
  rewrite IH. destruct b; reflexivity.
Qed.

Lemma zip_with_orb_diag (l : list bool) : zip_with orb l l = l.
Proof.
  induction l as [|b l IH]; simpl; [reflexivity|].
  rewrite IH. destruct b; reflexivity.
Qed.

Lemma count_true_binarize_0 (thres : Q) (a : list Q) :
  count_true (binarize thres a) = 0 <-> existsb (Qltb thres) a = false.
Proof.
  unfold count_true, binarize. induction a as [|v a IH]; simpl; [tauto|].
  destruct (Qltb thres v) eqn:Hv; simpl.
  - split; [lia | discriminate].
  - exact IH.
Qed.

(** C6, as the spec's definition has it. [iou(A, A, t)] is 1 when some
    element of [A] exceeds [t], and 0, the value of an empty union, when
    none does. *)
Theorem iou_self (A : list Q) (t : Q) :
  (iou A A t == if existsb (Qltb t) A then 1 else 0)%Q.
Proof.
  unfold iou. cbv zeta. rewrite zip_with_andb_diag, zip_with_orb_diag.
  destruct (Nat.eqb_spec (count_true (binarize t A)) 0) as [Hz|Hnz].
  - apply count_true_binarize_0 in Hz. rewrite Hz. reflexivity.
  - destruct (existsb (Qltb t) A) eqn:Hex.
    + apply Qmult_inv_r. unfold Qeq. simpl. lia.
    + apply count_true_binarize_0 in Hex. contradiction.
Qed.

(** C6 as stated fails where nothing exceeds the threshold: the union is
    empty and the result is 0. *)
Lemma iou_self_empty_union :
  (iou [0%Q; 1 # 4] [0%Q; 1 # 4] (1 # 2) == 0)%Q /\
  ~ (iou [0%Q; 1 # 4] [0%Q; 1 # 4] (1 # 2) == 1)%Q.
Proof.
  split; [vm_compute; reflexivity|].
  vm_compute. discriminate.
Qed.

(** ** The crop *)

(** C5 fails on the code: the slices end before the largest occupied index
    of each axis. Of the eight occupied samples of the cube one is kept. *)
Lemma crop_drops_last_occupied_index :
  crop demo_cube = Ok [[[1%Q]]] /\
  count_above demo_cube (99 # 100) = 8 /\
  count_above [[[1%Q]]] (99 # 100) = 1 /\
  shape demo_cube = (2, 2, 2) /\
  shape [[[1%Q]]] = (1, 1, 1).
Proof.
  repeat split; vm_compute; reflexivity.
Qed.

(** ** Reporting failures *)

Lemma minibatches_nonempty (n maxpoints : nat) (indices : list nat) :
  0 < maxpoints -> 0 < n ->
  exists b batches, minibatches n maxpoints indices = Ok (b :: batches).
Proof.
  intros Hm Hn. unfold minibatches, py_range.
  destruct (Nat.eqb_spec maxpoints 0) as [->|_]; [lia|].
  destruct n as [|n]; [lia|]. simpl. eauto.
Qed.

Section LoopFacts.
Context {Coord Net : Type} `{Coord_inhabited : Inhabited Coord}.
Variable forward : Net -> list Coord -> tensor.
Variable optim_step : Net -> nat -> list Coord -> tensor -> Net.
Variable coords : list Coord.
Variable targets : tensor.
Variable last_epoch : nat.

Lemma minibatch_loop_loss_kept (batches : list (list nat)) (s : loop_state Net) :
  is_Some (loss s) ->
  is_Some (loss (foldl (minibatch forward optim_step coords targets last_epoch) s batches)).
Proof.
  revert s. induction batches as [|b batches IH]; intros s Hs; simpl; [exact Hs|].
  apply IH. simpl. eauto.
Qed.

(** After an epoch with at least one minibatch [cnt] is positive and [loss]
    is bound. *)
Lemma minibatch_loop_ran (b : list nat) (batches : list (list nat)) (s : loop_state Net) :
  cnt s = 0 ->
  let l := foldl (minibatch forward optim_step coords targets last_epoch) s (b :: batches) in
  (cnt l =? 0) = false /\ is_Some (loss l).
Proof.
  intros Hc l. split.
  - destruct (minibatch_loop_totals forward optim_step coords targets last_epoch
                (b :: batches) s) as [Hcnt _].
    fold l in Hcnt. apply Nat.eqb_neq. rewrite Hcnt. simpl. lia.
  - subst l. simpl. apply minibatch_loop_loss_kept. simpl. eauto.
Qed.

End LoopFacts.

Section ImageRun.
Context {Coord Net : Type} `{Coord_inhabited : Inhabited Coord}.
Variable forward : Net -> list Coord -> tensor.
Variable optim_step : Net -> nat -> list Coord -> tensor -> Net.
Variable randperm : nat -> nat -> list nat.
Variable wandb_log : bool.
Variable wandb : tracker.
Variables H W : nat.
Variable coords : list Coord.
Variables gt gt_noisy : tensor.
Variables niters maxpoints : nat.
Variable net0 : Net.
Hypothesis maxpoints_pos : 0 < maxpoints.
Hypothesis samples_pos : 0 < H * W.

Local Abbreviation epoch_body :=
  (Image.epoch_body forward optim_step randperm wandb_log wandb H W coords gt gt_noisy
     maxpoints).
Local Abbreviation epochs k :=
  (Image.epochs forward optim_step randperm wandb_log wandb H W coords gt gt_noisy
     niters maxpoints k net0).

(** An epoch whose report goes through, or that reports nothing, ends well. *)
Lemma image_epoch_ok (epoch : nat) (s : Image.state Net) :
  (wandb_log = true -> log_ok wandb epoch = true) ->
  exists s', epoch_body epoch s = (s', Ok tt) /\
    Image.last_epoch s' = S (Image.last_epoch s) /\
    (epoch = 0 \/ is_Some (Image.best_img s) -> is_Some (Image.best_img s')).
Proof.
  intros Hlog. unfold Image.epoch_body, xp_log.
  destruct (minibatches_nonempty (H * W) maxpoints (randperm epoch (H * W))
              maxpoints_pos samples_pos) as (b & batches & ->).
  match goal with |- context [foldl ?f ?i (b :: batches)] =>
    destruct (minibatch_loop_ran forward optim_step coords gt_noisy
                (Image.last_epoch s) b batches i eq_refl) as [Hcnt _];
    set (l := foldl f i (b :: batches)) in *
  end.
  rewrite Hcnt.
  destruct wandb_log; [rewrite Hlog by reflexivity|];
    (eexists; split; [reflexivity|]; simpl; split; [reflexivity|];
     intros [->|Hbest]; [unfold Image.is_best; simpl; rewrite orb_true_r; eauto|];
     destruct (Image.is_best _ _ _); eauto).
Qed.


Lemma image_epochs_ok (k : nat) :
  (wandb_log = true -> forall e, e < k -> log_ok wandb e = true) ->
  exists s, epochs k = (s, Ok tt) /\ Image.last_epoch s = k /\
    (0 < k -> is_Some (Image.best_img s)).
Proof.
  induction k as [|k IH]; intros Hlog.
  - eexists. split; [reflexivity|]. split; [reflexivity | lia].
  - destruct IH as (s & Hs & Hlast & Hbest).
    { intros Hon e He. apply Hlog; [exact Hon | lia]. }
    destruct (image_epoch_ok k s) as (s' & Hstep & Hlast' & Hbest').
    { intros Hon. apply Hlog; [exact Hon | lia]. }
    exists s'. split; [apply for_each_seq_S; eauto|].
    split; [lia|]. intros _. apply Hbest'.
    destruct k as [|k]; [left; reflexivity | right; apply Hbest; lia].
Qed.


End ImageRun.

Section OccupancyRun.
Context {Coord Net : Type} `{Coord_inhabited : Inhabited Coord}.
Variable forward : Net -> list Coord -> tensor.
Variable optim_step : Net -> nat -> list Coord -> tensor -> Net.
Variable randperm : nat -> nat -> list nat.
Variable wandb_log : bool.
Variable wandb : tracker.
Variable get_coords : nat -> nat -> nat -> list Coord.
Variables niters maxpoints : nat.
Variables H W T : nat.
Variable im : volume.
Variable net0 : Net.
Hypothesis maxpoints_pos : 0 < maxpoints.
Hypothesis samples_pos : 0 < H * W * T.
(** The model returns one pixel for each coordinate, [torch.randperm(n)]
    returns [n] indices, and no minibatch holds exactly one index. *)
Hypothesis forward_length : forall net b_coords,
  length (forward net b_coords) = length b_coords.
Hypothesis randperm_length : forall idx,
  length (randperm idx (H * W * T)) = H * W * T.
Hypothesis batch_size_not_1 : Occupancy.batch_size maxpoints H W T <> 1.
Hypothesis remainder_not_1 : (H * W * T) mod Occupancy.batch_size maxpoints H W T <> 1.

Local Abbreviation epoch_body :=
  (Occupancy.epoch_body forward optim_step randperm wandb_log wandb get_coords
     maxpoints H W T im).
Local Abbreviation epochs k :=
  (Occupancy.epochs forward optim_step randperm wandb_log wandb get_coords niters
     maxpoints H W T im k net0).







End OccupancyRun.




(** * Further properties of the scripts *)

(** ** What an epoch of the image script leaves behind *)

Section ImageHistory.
Context {Coord Net : Type} `{Coord_inhabited : Inhabited Coord}.
Variable forward : Net -> list Coord -> tensor.
Variable optim_step : Net -> nat -> list Coord -> tensor -> Net.
Variable randperm : nat -> nat -> list nat.
Variable wandb_log : bool.
Variable wandb : tracker.
Variables H W : nat.
Variable coords : list Coord.
Variables gt gt_noisy : tensor.
Variables niters maxpoints : nat.
Variable net0 : Net.

Local Abbreviation epoch_body :=
  (Image.epoch_body forward optim_step randperm wandb_log wandb H W coords gt gt_noisy
     maxpoints).
Local Abbreviation epochs k :=
  (Image.epochs forward optim_step randperm wandb_log wandb H W coords gt gt_noisy
     niters maxpoints k net0).
Local Abbreviation state_after k :=
  (Image.state_after forward optim_step randperm wandb_log wandb H W coords gt
     gt_noisy niters maxpoints k net0).
Local Abbreviation mse_of_epoch e :=
  (Image.mse_of_epoch forward optim_step randperm wandb_log wandb H W coords gt
     gt_noisy niters maxpoints e net0).

Lemma minibatch_loop_buf_length (targets : tensor) (last_epoch : nat)
    (batches : list (list nat)) (s : loop_state Net) :
  length (l_buf (foldl (minibatch forward optim_step coords targets last_epoch) s batches))
  = length (l_buf s).
Proof.
  revert s. induction batches as [|b batches IH]; intros s; simpl; [reflexivity|].
  rewrite IH. simpl. apply scatter_length.
Qed.

(** The fields of the state after a successful epoch. *)
Lemma image_epoch_fields (epoch : nat) (s s' : Image.state Net) :
  epoch_body epoch s = (s', Ok tt) ->
  Image.mse_array s' = <[epoch := mse gt (Image.rec s')]> (Image.mse_array s) /\
  Image.mse_loss_array s'
  = <[epoch := mse gt_noisy (Image.rec s')]> (Image.mse_loss_array s) /\
  Image.last_epoch s' = S (Image.last_epoch s) /\
  length (Image.rec s') = length (Image.rec s) /\
  (wandb_log = false -> Image.xp_history s' = Image.xp_history s) /\
  (wandb_log = true ->
     exists entry, Image.xp_history s' = Image.xp_history s ++ [entry] /\
       log_metric entry = Psnr (NegTenLog10 (mse gt (Image.rec s')))).
Proof.
  unfold Image.epoch_body, xp_log. intros Hstep.
  destruct (minibatches (H * W) maxpoints (randperm epoch (H * W)))
    as [batches|e]; [|discriminate].
  match type of Hstep with context [foldl ?f ?i batches] =>
    pose proof (minibatch_loop_buf_length gt_noisy (Image.last_epoch s) batches i) as Hlen;
    set (l := foldl f i batches) in *
  end.
  simpl in Hlen.
  destruct wandb_log.
  - destruct (cnt l =? 0); [discriminate|].
    destruct (log_ok wandb epoch); [|discriminate].
    injection Hstep as <-. simpl.
    repeat split; try reflexivity; try exact Hlen; try discriminate.
    intros _. eexists. split; reflexivity.
  - injection Hstep as <-. simpl.
    repeat split; try reflexivity; try exact Hlen; try discriminate.
Qed.

Lemma image_state_after_eq (k : nat) (s : Image.state Net) :
  epochs k = (s, Ok tt) -> state_after k = s.
Proof. intros Hrun. unfold Image.state_after. rewrite Hrun. reflexivity. Qed.

Lemma image_run_step (k : nat) (s' : Image.state Net) :
  epochs (S k) = (s', Ok tt) ->
  exists s, epochs k = (s, Ok tt) /\ epoch_body k s = (s', Ok tt).
Proof. intros Hrun. apply for_each_seq_S in Hrun. exact Hrun. Qed.

(** X1. The history arrays after [k] epochs: slot [e < k] holds the value of
    epoch [e], the later slots are still zero. *)
Lemma image_history_arrays (k : nat) (s : Image.state Net) :
  epochs k = (s, Ok tt) -> k <= niters ->
  length (Image.mse_array s) = niters /\
  length (Image.mse_loss_array s) = niters /\
  Image.last_epoch s = k /\
  length (Image.rec s) = length gt /\
  (forall e, e < k ->
     Image.mse_array s !! e = Some (mse_of_epoch e) /\
     Image.mse_loss_array s !! e
     = Some (mse gt_noisy (Image.rec (state_after (S e))))) /\
  (forall e, k <= e -> e < niters ->
     Image.mse_array s !! e = Some 0%Q /\ Image.mse_loss_array s !! e = Some 0%Q).
Proof.
  revert s. induction k as [|k IH]; intros s' Hrun Hk.
  - injection Hrun as <-. simpl.
    rewrite !length_replicate. unfold zeros_like. rewrite length_fmap.
    split; [reflexivity|]. split; [reflexivity|]. split; [reflexivity|].
    split; [reflexivity|]. split; [intros e He; lia|].
    intros e _ He. split; apply lookup_replicate_2; lia.
  - pose proof (image_state_after_eq _ _ Hrun) as Hafter.
    apply image_run_step in Hrun as (s & Hs & Hstep).
    destruct (IH s Hs ltac:(lia)) as (Hl1 & Hl2 & Hlast & Hrec & Hdone & Htodo).
    apply image_epoch_fields in Hstep as (Hm1 & Hm2 & Hlast' & Hrec' & _ & _).
    rewrite Hm1, Hm2, !length_insert.
    split; [exact Hl1|]. split; [exact Hl2|]. split; [lia|].
    split; [congruence|]. split.
    + intros e He. destruct (decide (e = k)) as [->|Hne].
      * rewrite !list_lookup_insert_eq by lia.
        unfold Image.mse_of_epoch. rewrite Hafter. split; reflexivity.
      * rewrite !list_lookup_insert_ne by congruence. apply Hdone. lia.
    + intros e He1 He2. rewrite !list_lookup_insert_ne by lia.
      apply Htodo; lia.
Qed.

(** X2. One [xp.log] entry per epoch when logging is on, none when it is off. *)
Lemma image_xp_history (k : nat) (s : Image.state Net) :
  epochs k = (s, Ok tt) ->
  (wandb_log = false -> Image.xp_history s = []) /\
  (wandb_log = true ->
     length (Image.xp_history s) = k /\
     forall e, e < k ->
       exists entry, Image.xp_history s !! e = Some entry /\
         log_metric entry = Psnr (NegTenLog10 (mse_of_epoch e))).
Proof.
  revert s. induction k as [|k IH]; intros s' Hrun.
  - injection Hrun as <-. simpl. split; [reflexivity|].
    intros _. split; [reflexivity|]. intros e He. lia.
  - pose proof (image_state_after_eq _ _ Hrun) as Hafter.
    apply image_run_step in Hrun as (s & Hs & Hstep).
    destruct (IH s Hs) as (Hoff & Hon).
    apply image_epoch_fields in Hstep as (_ & _ & _ & _ & Hoff' & Hon').
    split.
    + intros Hw. rewrite (Hoff' Hw). apply Hoff. exact Hw.
    + intros Hw. destruct (Hon Hw) as (Hlen & Hentries).
      destruct (Hon' Hw) as (entry & -> & Hentry).
      rewrite length_app. simpl. split; [lia|].
      intros e He. destruct (decide (e = k)) as [->|Hne].
      * exists entry. rewrite lookup_app_r by lia.
        rewrite Hlen, Nat.sub_diag. split; [reflexivity|].
        unfold Image.mse_of_epoch. rewrite Hafter. exact Hentry.
      * rewrite lookup_app_l by lia. apply Hentries. lia.
Qed.

(** After [k >= 1] epochs the best pair is that of the earliest epoch with
    the least tracked metric. *)
Lemma image_best_is_earliest_least (k : nat) (s : Image.state Net) :
  epochs (S k) = (s, Ok tt) ->
  exists j, j <= k /\
    Image.best_mse s = Fin (mse_of_epoch j) /\
    Image.best_img s = Some (Image.rec (state_after (S j))) /\
    (forall i, i <= k -> (mse_of_epoch j <= mse_of_epoch i)%Q) /\
    (forall i, i < j -> (mse_of_epoch j < mse_of_epoch i)%Q).
Proof.
  revert s. induction k as [|k IH]; intros s' Hrun.
  - pose proof (image_state_after_eq _ _ Hrun) as Hafter.
    apply image_run_step in Hrun as (s & Hs & Hstep).
    apply image_epoch_best in Hstep as [Hm Himg].
    unfold Image.is_best in Hm, Himg. simpl in Hm, Himg.
    rewrite orb_true_r in Hm, Himg.
    exists 0. split; [lia|]. unfold Image.mse_of_epoch. rewrite Hafter.
    split; [exact Hm|]. split; [exact Himg|]. split.
    + intros i Hi. assert (i = 0) as -> by lia. rewrite Hafter. apply Qle_refl.
    + intros i Hi. lia.
  - pose proof (image_state_after_eq _ _ Hrun) as Hafter.
    apply image_run_step in Hrun as (s & Hs & Hstep).
    apply image_epoch_best in Hstep as [Hm Himg].
    destruct (IH s Hs) as (j & Hj & Hbest & Hbimg & Hleast & Hfirst).
    assert (Hk : mse_of_epoch (S k) = mse gt (Image.rec s')).
    { unfold Image.mse_of_epoch. rewrite Hafter. reflexivity. }
    rewrite Hbest in Hm, Himg. unfold Image.is_best in Hm, Himg.
    simpl in Hm, Himg. rewrite orb_false_r in Hm, Himg.
    rewrite <- Hk in Hm, Himg.
    destruct (Qltb (mse_of_epoch (S k)) (mse_of_epoch j)) eqn:Hlt.
    + apply Qltb_lt in Hlt. exists (S k). split; [lia|]. split; [exact Hm|].
      split; [rewrite Hafter; exact Himg|]. split.
      * intros i Hi. destruct (decide (i = S k)) as [->|Hne]; [apply Qle_refl|].
        apply Qlt_le_weak. eapply Qlt_le_trans; [exact Hlt|]. apply Hleast. lia.
      * intros i Hi. eapply Qlt_le_trans; [exact Hlt|]. apply Hleast. lia.
    + apply Qltb_ge in Hlt. exists j. split; [lia|]. split; [exact Hm|].
      split; [rewrite Himg; exact Hbimg|]. split.
      * intros i Hi. destruct (decide (i = S k)) as [->|Hne]; [exact Hlt|].
        apply Hleast. lia.
      * exact Hfirst.
Qed.

End ImageHistory.

(** ** What an epoch of the occupancy script leaves behind *)

Section OccupancyHistory.
Context {Coord Net : Type} `{Coord_inhabited : Inhabited Coord}.
Variable forward : Net -> list Coord -> tensor.
Variable optim_step : Net -> nat -> list Coord -> tensor -> Net.
Variable randperm : nat -> nat -> list nat.
Variable wandb_log : bool.
Variable wandb : tracker.
Variable get_coords : nat -> nat -> nat -> list Coord.
Variables niters maxpoints : nat.
Variables H W T : nat.
Variable im : volume.
Variable net0 : Net.

Local Abbreviation epoch_body :=
  (Occupancy.epoch_body forward optim_step randperm wandb_log wandb get_coords
     maxpoints H W T im).
Local Abbreviation epochs k :=
  (Occupancy.epochs forward optim_step randperm wandb_log wandb get_coords niters
     maxpoints H W T im k net0).
Local Abbreviation state_after k :=
  (Occupancy.state_after forward optim_step randperm wandb_log wandb get_coords niters
     maxpoints H W T im k net0).
Local Abbreviation iou_of_epoch e :=
  (Occupancy.iou_of_epoch forward optim_step randperm wandb_log wandb get_coords
     niters maxpoints H W T im e net0).
Local Abbreviation lossval_of_epoch e :=
  (Occupancy.lossval_of_epoch forward optim_step randperm wandb_log wandb get_coords
     niters maxpoints H W T im e net0).

(** The fields of the state after a successful epoch. *)
Lemma occupancy_epoch_fields (idx : nat) (s s' : Occupancy.state Net) :
  epoch_body idx s = (s', Ok tt) ->
  Occupancy.mse_array s'
  = <[idx := get_IoU (Occupancy.im_estim s') (Occupancy.imten im) Occupancy.mcubes_thres]>
      (Occupancy.mse_array s) /\
  Occupancy.last_epoch s' = S (Occupancy.last_epoch s) /\
  length (Occupancy.im_estim s') = length (Occupancy.im_estim s) /\
  (wandb_log = false -> Occupancy.xp_history s' = Occupancy.xp_history s) /\
  (wandb_log = true ->
     exists entry, Occupancy.xp_history s' = Occupancy.xp_history s ++ [entry] /\
       log_metric entry
       = Iou (get_IoU (Occupancy.im_estim s') (Occupancy.imten im)
                Occupancy.mcubes_thres)).
Proof.
  unfold Occupancy.epoch_body, xp_log, Occupancy.occupancy. intros Hstep.
  destruct (minibatches (H * W * T) (Occupancy.batch_size maxpoints H W T)
              (randperm idx (H * W * T))) as [batches|e]; [|discriminate].
  destruct (for_each _ batches _) as [l [u|e]] eqn:Hloop; [|discriminate].
  apply occupancy_loop_ok in Hloop.
  assert (Hlen : length (l_buf l) = length (Occupancy.im_estim s)).
  { rewrite Hloop.
    apply (minibatch_loop_buf_length forward optim_step
             (Occupancy.coords get_coords H W T) (Occupancy.imten im)
             (Occupancy.last_epoch s) batches). }
  destruct wandb_log.
  - destruct (cnt l =? 0); [discriminate|].
    destruct (log_ok wandb idx); [|discriminate].
    destruct (loss l) as [lv|]; [|discriminate].
    injection Hstep as <-. simpl.
    split; [reflexivity|]. split; [reflexivity|]. split; [exact Hlen|].
    split; [discriminate|]. intros _. eexists. split; reflexivity.
  - destruct (loss l) as [lv|]; [|discriminate].
    injection Hstep as <-. simpl.
    split; [reflexivity|]. split; [reflexivity|]. split; [exact Hlen|].
    split; [reflexivity | discriminate].
Qed.

Lemma occupancy_state_after_eq (k : nat) (s : Occupancy.state Net) :
  epochs k = (s, Ok tt) -> state_after k = s.
Proof. intros Hrun. unfold Occupancy.state_after. rewrite Hrun. reflexivity. Qed.

(** X3. The history array after [k] epochs: slot [e < k] holds the IoU of epoch
    [e], the later slots are still zero. *)
Lemma occupancy_history_array (k : nat) (s : Occupancy.state Net) :
  epochs k = (s, Ok tt) -> k <= niters ->
  length (Occupancy.mse_array s) = niters /\
  Occupancy.last_epoch s = k /\
  length (Occupancy.im_estim s) = H * W * T /\
  (forall e, e < k -> Occupancy.mse_array s !! e = Some (iou_of_epoch e)) /\
  (forall e, k <= e -> e < niters -> Occupancy.mse_array s !! e = Some 0%Q).
Proof.
  revert s. induction k as [|k IH]; intros s' Hrun Hk.
  - injection Hrun as <-. simpl. rewrite !length_replicate.
    split; [reflexivity|]. split; [reflexivity|]. split; [reflexivity|].
    split; [intros e He; lia|].
    intros e _ He. apply lookup_replicate_2. lia.
  - pose proof (occupancy_state_after_eq _ _ Hrun) as Hafter.
    apply occupancy_state_after_S in Hrun as (s & Hs & Hstep).
    destruct (IH s Hs ltac:(lia)) as (Hl1 & Hlast & Hbuf & Hdone & Htodo).
    apply occupancy_epoch_fields in Hstep as (Hm1 & Hlast' & Hbuf' & _ & _).
    rewrite Hm1, length_insert.
    split; [exact Hl1|]. split; [lia|]. split; [congruence|]. split.
    + intros e He. destruct (decide (e = k)) as [->|Hne].
      * rewrite list_lookup_insert_eq by lia.
        unfold Occupancy.iou_of_epoch. rewrite Hafter. reflexivity.
      * rewrite list_lookup_insert_ne by congruence. apply Hdone. lia.
    + intros e He1 He2. rewrite list_lookup_insert_ne by lia.
      apply Htodo; lia.
Qed.


End OccupancyHistory.

(** ** What the scripts write to disk *)

(** X4. The image script, when [wandb.init] and every [xp.log] go through (or
    logging is off), writes three artifacts. The image in the results file
    and in the preview is the Reconstruction Buffer as the earliest epoch
    with the least mean squared error against the ground truth left it; the
    checkpoint holds the parameters after the last epoch; the two history
    arrays are those of the final state. *)
Theorem image_main_saves_earliest_best
    {Coord Net : Type} `{Coord_inhabited : Inhabited Coord}
    (forward : Net -> list Coord -> tensor)
    (optim_step : Net -> nat -> list Coord -> tensor -> Net)
    (randperm : nat -> nat -> list nat) (wandb_log : bool) (wandb : tracker)
    (H W : nat) (coords : list Coord) (gt gt_noisy : tensor)
    (niters maxpoints : nat) (net0 : Net) :
  0 < maxpoints -> 0 < H * W -> 0 < niters ->
  (wandb_log = true ->
     init_ok wandb = true /\ forall e, e < niters -> log_ok wandb e = true) ->
  let state_after := Image.state_after forward optim_step randperm wandb_log wandb
                       H W coords gt gt_noisy niters maxpoints in
  let mse_of_epoch := Image.mse_of_epoch forward optim_step randperm wandb_log wandb
                        H W coords gt gt_noisy niters maxpoints in
  exists j, j < niters /\
    Image.persisted
      (Image.main forward optim_step randperm wandb_log wandb H W coords gt gt_noisy
         niters maxpoints net0)
    = [ResultsMat (Some (Image.rec (state_after (S j) net0)))
         [Image.mse_loss_array (state_after niters net0);
          Image.mse_array (state_after niters net0)];
       ModelCheckpoint (Image.net (state_after niters net0));
       PreviewImage (Image.rec (state_after (S j) net0))] /\
    (forall i, i < niters -> (mse_of_epoch j net0 <= mse_of_epoch i net0)%Q) /\
    (forall i, i < j -> (mse_of_epoch j net0 < mse_of_epoch i net0)%Q).
Proof.
  intros Hmp Hn Hniters Hup state_after mse_of_epoch.
  destruct (image_epochs_ok forward optim_step randperm wandb_log wandb H W coords
              gt gt_noisy niters maxpoints net0 Hmp Hn niters) as (s & Hs & _ & _).
  { intros Hon. apply (Hup Hon). }
  destruct niters as [|k]; [lia|].
  destruct (image_best_is_earliest_least forward optim_step randperm wandb_log wandb
              H W coords gt gt_noisy (S k) maxpoints net0 k s Hs)
    as (j & Hj & _ & Himg & Hleast & Hfirst).
  exists j. split; [lia|]. split.
  - unfold Image.main, image_optim_init, scheduler_init.
    assert (Hinit : wandb_log && negb (init_ok wandb) = false).
    { destruct wandb_log; [|reflexivity].
      destruct (Hup eq_refl) as [-> _]. reflexivity. }
    rewrite Hinit. subst state_after.
    destruct (Nat.eqb_spec (H * W) 0) as [Hz|_]; [lia|]. cbn [Nat.eqb].
    rewrite (image_state_after_eq forward optim_step randperm wandb_log wandb H W
               coords gt gt_noisy (S k) maxpoints net0 (S k) s Hs).
    rewrite Hs, Himg. reflexivity.
  - split; [intros i Hi; apply Hleast; lia | exact Hfirst].
Qed.


Lemma image_main_saves_earliest_best_witness :
  exists j, j < 2 /\
    Image.persisted (demo_image_main true tracker_up)
    = [ResultsMat (Some (Image.rec (demo_image_state (S j))))
         [Image.mse_loss_array (demo_image_state 2);
          Image.mse_array (demo_image_state 2)];
       ModelCheckpoint (Image.net (demo_image_state 2));
       PreviewImage (Image.rec (demo_image_state (S j)))] /\
    (forall i, i < 2 -> (demo_image_mse j <= demo_image_mse i)%Q) /\
    (forall i, i < j -> (demo_image_mse j < demo_image_mse i)%Q).
Proof.
  apply (image_main_saves_earliest_best demo_forward demo_optim_step demo_randperm
           true tracker_up 1 3 demo_coords demo_gt demo_gt_noisy 2 2 0);
    [lia | lia | lia |].
  intros _. split; reflexivity.
Defined.


Lemma image_history_arrays_witness :
  let s := demo_image_state 2 in
  length (Image.mse_array s) = 2 /\
  length (Image.mse_loss_array s) = 2 /\
  Image.last_epoch s = 2 /\
  length (Image.rec s) = length demo_gt /\
  (forall e, e < 2 ->
     Image.mse_array s !! e = Some (demo_image_mse e) /\
     Image.mse_loss_array s !! e
     = Some (mse demo_gt_noisy (Image.rec (demo_image_state (S e))))) /\
  (forall e, 2 <= e -> e < 2 ->
     Image.mse_array s !! e = Some 0%Q /\ Image.mse_loss_array s !! e = Some 0%Q).
Proof.
  intros s.
  apply (image_history_arrays demo_forward demo_optim_step demo_randperm true
           tracker_up 1 3 demo_coords demo_gt demo_gt_noisy 2 2 0 2 s);
    [vm_compute; reflexivity | lia].
Defined.

Lemma image_xp_history_witness :
  let s := demo_image_state 2 in
  (true = false -> Image.xp_history s = []) /\
  (true = true ->
     length (Image.xp_history s) = 2 /\
     forall e, e < 2 ->
       exists entry, Image.xp_history s !! e = Some entry /\
         log_metric entry = Psnr (NegTenLog10 (demo_image_mse e))).
Proof.
  intros s.
  apply (image_xp_history demo_forward demo_optim_step demo_randperm true
           tracker_up 1 3 demo_coords demo_gt demo_gt_noisy 2 2 0 2 s).
  vm_compute. reflexivity.
Defined.

Lemma occupancy_history_array_witness :
  let s := demo_occ_state 2 in
  length (Occupancy.mse_array s) = 2 /\
  Occupancy.last_epoch s = 2 /\
  length (Occupancy.im_estim s) = 1 * 1 * 2 /\
  (forall e, e < 2 -> Occupancy.mse_array s !! e = Some (demo_occ_iou e)) /\
  (forall e, 2 <= e -> e < 2 -> Occupancy.mse_array s !! e = Some 0%Q).
Proof.
  intros s.
  apply (occupancy_history_array demo_occ_forward demo_optim_step demo_occ_randperm
           false tracker_up demo_get_coords 2 2 1 1 2 demo_volume 0 2 s);
    [vm_compute; reflexivity | lia].
Defined.

(** ** Minibatches of a small signal *)

(** X6. A signal with no more samples than [maxpoints] is trained on in one
    minibatch per epoch, which is the whole permutation; this is so too for
    the batch size [min(H * W * T, maxpoints)] of the occupancy script. *)
Theorem small_signal_single_minibatch (n maxpoints : nat) (indices : list nat) :
  0 < n -> n <= maxpoints -> length indices = n ->
  minibatches n maxpoints indices = Ok [indices] /\
  minibatches n (Nat.min n maxpoints) indices = Ok [indices].
Proof.
  intros Hn Hle Hlen.
  assert (Hone : forall bs, n <= bs -> minibatches n bs indices = Ok [indices]).
  { intros bs Hbs. rewrite minibatches_chunks by lia.
    replace ((n + bs - 1) / bs) with 1.
    - simpl. rewrite drop_0, take_ge by lia. reflexivity.
    - apply (Nat.div_unique _ _ 1 (n - 1)); lia. }
  split; apply Hone; lia.
Qed.

Lemma small_signal_single_minibatch_witness :
  minibatches 3 4 (demo_randperm 0 3) = Ok [demo_randperm 0 3] /\
  minibatches 3 (Nat.min 3 4) (demo_randperm 0 3) = Ok [demo_randperm 0 3].
Proof.
  apply (small_signal_single_minibatch 3 4 (demo_randperm 0 3));
    [lia | lia | reflexivity].
Defined.

(** ** The buffer after an epoch *)

Section EpochBuffer.
Context {Coord Net : Type} `{Coord_inhabited : Inhabited Coord}.
Variable forward : Net -> list Coord -> tensor.
Variable optim_step : Net -> nat -> list Coord -> tensor -> Net.
Variable coords : list Coord.
Variable targets : tensor.
Variable last_epoch : nat.
(** The model returns one pixel for each coordinate. *)
Hypothesis forward_length : forall net b_coords,
  length (forward net b_coords) = length b_coords.

Local Abbreviation step := (minibatch forward optim_step coords targets last_epoch).

Lemma minibatch_loop_untouched (batches : list (list nat)) (s : loop_state Net) (i : nat) :
  i ∉ concat batches -> l_buf (foldl step s batches) !! i = l_buf s !! i.
Proof.
  revert s. induction batches as [|b batches IH]; intros s Hi; [reflexivity|].
  simpl in Hi. apply not_elem_of_app in Hi as [Hb Hrest].
  simpl. rewrite IH by exact Hrest. simpl.
  apply scatter_lookup_notin. exact Hb.
Qed.



End EpochBuffer.


(** ** The learning rate during training *)

Lemma Rpower_base_lt_1_above (d x : R) :
  (0 < d < 1)%R -> (x < 1)%R -> (d < Rpower d x)%R.
Proof.
  intros [Hd0 Hd1] Hx.
  rewrite <- (Rpower_1 d Hd0) at 1. unfold Rpower.
  apply exp_increasing.
  assert (Hln : (ln d < 0)%R) by (rewrite <- ln_1; apply ln_increasing; assumption).
  nra.
Qed.

Lemma epoch_fraction_below_1 (niters e : nat) :
  e < niters -> (Rmin (INR e / INR niters) 1 < 1)%R.
Proof.
  intros He.
  assert (HposN : (0 < INR niters)%R) by (apply lt_0_INR; lia).
  eapply Rle_lt_trans; [apply Rmin_l|].
  apply (Rmult_lt_reg_r (INR niters)); [exact HposN|].
  unfold Rdiv. rewrite Rmult_assoc, Rinv_l by lra.
  rewrite Rmult_1_l, Rmult_1_r. apply lt_INR. exact He.
Qed.

Lemma epoch_fraction_nonneg (niters e : nat) :
  (0 <= Rmin (INR e / INR niters) 1)%R.
Proof.
  apply Rmin_glb; [|lra].
  destruct niters as [|N].
  - simpl INR. unfold Rdiv. rewrite Rinv_0, Rmult_0_r. lra.
  - apply Rmult_le_pos; [apply pos_INR|].
    left. apply Rinv_0_lt_compat. apply lt_0_INR. lia.
Qed.

(** X8. In every epoch of the budget the rate Adam steps with is at most the
    initial rate and strictly above the decay factor times the initial rate:
    the floor of the schedule is reached only by the scheduler step that ends
    the last epoch, after the last optimizer step. *)
Theorem lr_stays_above_floor_in_training (initial_lr d : R) (niters e : nat) :
  (0 < initial_lr)%R -> (0 < d < 1)%R -> e < niters ->
  (d * initial_lr < lambda_lr initial_lr (lr_lambda d niters) e <= initial_lr)%R /\
  lambda_lr initial_lr (lr_lambda d niters) niters = (initial_lr * d)%R.
Proof.
  intros Hlr Hd He. unfold lambda_lr.
  assert (Hlow : (d < lr_lambda d niters e)%R).
  { unfold lr_lambda. apply Rpower_base_lt_1_above; [exact Hd|].
    apply epoch_fraction_below_1. exact He. }
  assert (Hhigh : (lr_lambda d niters e <= 1)%R).
  { rewrite <- (lr_lambda_start d niters) by lra.
    apply lr_lambda_antitone; [lra | lia | lia]. }
  split; [split; nra|].
  rewrite lr_lambda_floor by (lra || lia). reflexivity.
Qed.

Lemma lr_stays_above_floor_in_training_witness :
  (image_decay * image_initial_lr learning_rate image_maxpoints 128 128
   < image_lr 128 128 1999
   <= image_initial_lr learning_rate image_maxpoints 128 128)%R /\
  image_lr 128 128 image_niters
  = (image_initial_lr learning_rate image_maxpoints 128 128 * image_decay)%R.
Proof.
  apply (lr_stays_above_floor_in_training
           (image_initial_lr learning_rate image_maxpoints 128 128) image_decay
           image_niters 1999).
  - unfold image_initial_lr, learning_rate.
    apply Rmult_lt_0_compat; [lra|]. apply Rmin_glb_lt; [lra|].
    apply Rdiv_lt_0_compat; apply lt_0_INR; apply Nat.ltb_lt; vm_compute; reflexivity.
  - unfold image_decay. lra.
  - unfold image_niters. lia.
Defined.

(** ** The crop of the occupancy volume *)

Lemma concat_elem {A} (ls : list (list A)) (x : A) :
  x ∈ concat ls <-> exists l, l ∈ ls /\ x ∈ l.
Proof.
  rewrite list_elem_of_In, in_concat. split.
  - intros (l & Hl & Hx). exists l. split; apply list_elem_of_In; assumption.
  - intros (l & Hl & Hx). exists l. split; apply list_elem_of_In; assumption.
Qed.

(** [np.where(im > thres)] lists exactly the positions whose sample exceeds
    the threshold. *)
Lemma np_where_gt_spec (im : volume) (thres : Q) (h w t : nat) :
  (h, w, t) ∈ np_where_gt im thres <->
  exists v, lookup3 im h w t = Some v /\ (thres < v)%Q.
Proof.
  unfold np_where_gt, lookup3. rewrite concat_elem. split.
  - intros (l1 & Hl1 & Hin1).
    apply elem_of_lookup_imap in Hl1 as (h' & plane & -> & Hplane).
    apply concat_elem in Hin1 as (l2 & Hl2 & Hin2).
    apply elem_of_lookup_imap in Hl2 as (w' & row & -> & Hrow).
    apply list_elem_of_omap in Hin2 as (o & Ho & Heq).
    apply elem_of_lookup_imap in Ho as (t' & v & -> & Hv).
    destruct (Qltb thres v) eqn:Hlt; [|discriminate].
    injection Heq as -> -> ->.
    rewrite Hplane, Hrow. exists v. split; [exact Hv|]. apply Qltb_lt. exact Hlt.
  - intros (v & Hlook & Hlt).
    destruct (im !! h) as [plane|] eqn:Hplane; [|discriminate].
    destruct (plane !! w) as [row|] eqn:Hrow; [|discriminate].
    eexists. split; [apply (elem_of_lookup_imap_2 _ _ _ _ Hplane)|].
    apply concat_elem.
    eexists. split; [apply (elem_of_lookup_imap_2 _ _ _ _ Hrow)|].
    apply list_elem_of_omap.
    eexists. split; [apply (elem_of_lookup_imap_2 _ _ _ _ Hlook)|].
    simpl. apply Qltb_lt in Hlt. rewrite Hlt. reflexivity.
Qed.

Lemma foldl_min_spec (l : list nat) (x : nat) :
  (foldl Nat.min x l = x \/ foldl Nat.min x l ∈ l) /\
  foldl Nat.min x l <= x /\ forall y, y ∈ l -> foldl Nat.min x l <= y.
Proof.
  revert x. induction l as [|a l IH]; intros x; simpl.
  - split; [left; reflexivity|]. split; [lia|]. intros y Hy. inversion Hy.
  - destruct (IH (Nat.min x a)) as (Hin & Hle & Hall).
    split; [|split].
    + destruct Hin as [Heq|Hin]; [|right; right; exact Hin].
      rewrite Heq. destruct (Nat.min_spec x a) as [[_ ->]|[_ ->]];
        [left; reflexivity | right; left].
    + lia.
    + intros y Hy. apply elem_of_cons in Hy as [->|Hy]; [lia | apply Hall; exact Hy].
Qed.

Lemma foldl_max_spec (l : list nat) (x : nat) :
  (foldl Nat.max x l = x \/ foldl Nat.max x l ∈ l) /\
  x <= foldl Nat.max x l /\ forall y, y ∈ l -> y <= foldl Nat.max x l.
Proof.
  revert x. induction l as [|a l IH]; intros x; simpl.
  - split; [left; reflexivity|]. split; [lia|]. intros y Hy. inversion Hy.
  - destruct (IH (Nat.max x a)) as (Hin & Hle & Hall).
    split; [|split].
    + destruct Hin as [Heq|Hin]; [|right; right; exact Hin].
      rewrite Heq. destruct (Nat.max_spec x a) as [[_ ->]|[_ ->]];
        [right; left | left; reflexivity].
    + lia.
    + intros y Hy. apply elem_of_cons in Hy as [->|Hy]; [lia | apply Hall; exact Hy].
Qed.

(** [a.min()] and [a.max()] return an element of the array that bounds all
    the others. *)
Lemma np_min_spec (a : list nat) (m : nat) :
  np_min a = Ok m -> m ∈ a /\ forall y, y ∈ a -> m <= y.
Proof.
  destruct a as [|x a]; [discriminate|]. simpl. intros [= <-].
  destruct (foldl_min_spec a x) as ([Heq|Hin] & Hle & Hall).
  - split; [rewrite Heq; left|].
    intros y Hy. apply elem_of_cons in Hy as [->|Hy]; [lia | apply Hall; exact Hy].
  - split; [right; exact Hin|].
    intros y Hy. apply elem_of_cons in Hy as [->|Hy]; [lia | apply Hall; exact Hy].
Qed.

Lemma np_max_spec (a : list nat) (m : nat) :
  np_max a = Ok m -> m ∈ a /\ forall y, y ∈ a -> y <= m.
Proof.
  destruct a as [|x a]; [discriminate|]. simpl. intros [= <-].
  destruct (foldl_max_spec a x) as ([Heq|Hin] & Hle & Hall).
  - split; [rewrite Heq; left|].
    intros y Hy. apply elem_of_cons in Hy as [->|Hy]; [lia | apply Hall; exact Hy].
  - split; [right; exact Hin|].
    intros y Hy. apply elem_of_cons in Hy as [->|Hy]; [lia | apply Hall; exact Hy].
Qed.

Lemma slice_lookup {A} (l : list A) (lo hi i : nat) :
  slice l lo hi !! i = if i <? hi - lo then l !! (lo + i) else None.
Proof.
  unfold slice. destruct (Nat.ltb_spec i (hi - lo)) as [Hlt|Hge].
  - rewrite lookup_take_lt by exact Hlt. apply lookup_drop.
  - apply lookup_take_ge. exact Hge.
Qed.

(** The entries of [im[h0:h1, w0:w1, t0:t1]]. *)
Lemma slice3_lookup (im : volume) (h0 h1 w0 w1 t0 t1 i j k : nat) :
  lookup3 (slice3 im h0 h1 w0 w1 t0 t1) i j k =
  if (i <? h1 - h0) && (j <? w1 - w0) && (k <? t1 - t0)
  then lookup3 im (h0 + i) (w0 + j) (t0 + k)
  else None.
Proof.
  unfold lookup3, slice3.
  rewrite list_lookup_fmap, slice_lookup.
  destruct (i <? h1 - h0); simpl; [|reflexivity].
  destruct (im !! (h0 + i)) as [plane|]; simpl;
    [|destruct (j <? w1 - w0), (k <? t1 - t0); reflexivity].
  rewrite list_lookup_fmap, slice_lookup.
  destruct (j <? w1 - w0); simpl; [|reflexivity].
  destruct (plane !! (w0 + j)) as [row|]; simpl;
    [|destruct (k <? t1 - t0); reflexivity].
  apply slice_lookup.
Qed.

(** X9. The crop raises exactly when no sample of the volume exceeds 0.99, and
    what it raises is the [ValueError] of [min()] on an empty array. *)
Theorem crop_raises_iff_nothing_occupied (im : volume) :
  (crop im = Raise ValueError <->
   forall h w t v, lookup3 im h w t = Some v -> (v <= 99 # 100)%Q) /\
  (forall e, crop im = Raise e -> e = ValueError).
Proof.
  unfold crop. cbv zeta.
  destruct (np_where_gt im (99 # 100)) as [|[[h w] t] idx] eqn:Hidx.
  - simpl. split; [|intros e [= <-]; reflexivity].
    split; [|reflexivity]. intros _ h w t v Hv.
    apply Qnot_lt_le. intros Hlt.
    assert (Hin : (h, w, t) ∈ np_where_gt im (99 # 100)).
    { apply np_where_gt_spec. eauto. }
    rewrite Hidx in Hin. inversion Hin.
  - simpl. split; [|intros e; discriminate].
    split; [discriminate|]. intros Hall. exfalso.
    assert (Hin : (h, w, t) ∈ np_where_gt im (99 # 100)) by (rewrite Hidx; left).
    apply np_where_gt_spec in Hin as (v & Hv & Hlt).
    apply (Qlt_not_le _ _ Hlt). eapply Hall. exact Hv.
Qed.

Lemma crop_bounds (im c : volume) :
  crop im = Ok c ->
  exists h0 h1 w0 w1 t0 t1,
    c = slice3 im h0 h1 w0 w1 t0 t1 /\
    let idx := np_where_gt im (99 # 100) in
    (h0 ∈ (fun p => p.1.1) <$> idx /\ forall y, y ∈ (fun p => p.1.1) <$> idx -> h0 <= y) /\
    (h1 ∈ (fun p => p.1.1) <$> idx /\ forall y, y ∈ (fun p => p.1.1) <$> idx -> y <= h1) /\
    (w0 ∈ (fun p => p.1.2) <$> idx /\ forall y, y ∈ (fun p => p.1.2) <$> idx -> w0 <= y) /\
    (w1 ∈ (fun p => p.1.2) <$> idx /\ forall y, y ∈ (fun p => p.1.2) <$> idx -> y <= w1) /\
    (t0 ∈ (fun p => p.2) <$> idx /\ forall y, y ∈ (fun p => p.2) <$> idx -> t0 <= y) /\
    (t1 ∈ (fun p => p.2) <$> idx /\ forall y, y ∈ (fun p => p.2) <$> idx -> y <= t1).
Proof.
  unfold crop. cbv zeta.
  set (idx := np_where_gt im (99 # 100)).
  destruct (np_min ((fun p : nat * nat * nat => p.1.1) <$> idx)) as [h0|] eqn:Hh0;
    [|discriminate].
  destruct (np_max ((fun p : nat * nat * nat => p.1.1) <$> idx)) as [h1|] eqn:Hh1;
    [|discriminate].
  destruct (np_min ((fun p : nat * nat * nat => p.1.2) <$> idx)) as [w0|] eqn:Hw0;
    [|discriminate].
  destruct (np_max ((fun p : nat * nat * nat => p.1.2) <$> idx)) as [w1|] eqn:Hw1;
    [|discriminate].
  destruct (np_min ((fun p : nat * nat * nat => p.2) <$> idx)) as [t0|] eqn:Ht0;
    [|discriminate].
  destruct (np_max ((fun p : nat * nat * nat => p.2) <$> idx)) as [t1|] eqn:Ht1;
    [|discriminate].
  intros [= <-]. exists h0, h1, w0, w1, t0, t1.
  split; [reflexivity|].
  apply np_min_spec in Hh0, Hw0, Ht0. apply np_max_spec in Hh1, Hw1, Ht1.
  repeat split; tauto.
Qed.

(** X10. The crop is the block [h0:h1, w0:w1, t0:t1] of the volume, where
    [h0..h1], [w0..w1] and [t0..t1] are the tight bounds of the positions
    above 0.99. The block stops one short of each upper bound: on each axis
    the plane at the upper bound holds a sample above 0.99 and is left out. *)
Theorem crop_is_block_short_of_upper_bounds (im c : volume) :
  crop im = Ok c ->
  exists h0 h1 w0 w1 t0 t1,
    (forall i j k,
       lookup3 c i j k =
       if (i <? h1 - h0) && (j <? w1 - w0) && (k <? t1 - t0)
       then lookup3 im (h0 + i) (w0 + j) (t0 + k)
       else None) /\
    (forall h w t v, lookup3 im h w t = Some v -> (99 # 100 < v)%Q ->
       h0 <= h <= h1 /\ w0 <= w <= w1 /\ t0 <= t <= t1) /\
    (exists w t v, lookup3 im h0 w t = Some v /\ (99 # 100 < v)%Q) /\
    (exists w t v, lookup3 im h1 w t = Some v /\ (99 # 100 < v)%Q) /\
    (exists h t v, lookup3 im h w0 t = Some v /\ (99 # 100 < v)%Q) /\
    (exists h t v, lookup3 im h w1 t = Some v /\ (99 # 100 < v)%Q) /\
    (exists h w v, lookup3 im h w t0 = Some v /\ (99 # 100 < v)%Q) /\
    (exists h w v, lookup3 im h w t1 = Some v /\ (99 # 100 < v)%Q).
Proof.
  intros Hcrop.
  destruct (crop_bounds im c Hcrop)
    as (h0 & h1 & w0 & w1 & t0 & t1 & -> & Hb).
  cbv zeta in Hb.
  destruct Hb as ([Hh0 Hh0'] & [Hh1 Hh1'] & [Hw0 Hw0'] & [Hw1 Hw1'] & [Ht0 Ht0'] & [Ht1 Ht1']).
  exists h0, h1, w0, w1, t0, t1.
  split; [intros i j k; apply slice3_lookup|].
  split.
  { intros h w t v Hv Hlt.
    assert (Hin : (h, w, t) ∈ np_where_gt im (99 # 100)).
    { apply np_where_gt_spec. eauto. }
    pose proof (list_elem_of_fmap_2 (fun p : nat * nat * nat => p.1.1) _ _ Hin) as Hh.
    pose proof (list_elem_of_fmap_2 (fun p : nat * nat * nat => p.1.2) _ _ Hin) as Hw.
    pose proof (list_elem_of_fmap_2 (fun p : nat * nat * nat => p.2) _ _ Hin) as Ht.
    simpl in Hh, Hw, Ht.
    pose proof (Hh0' _ Hh). pose proof (Hh1' _ Hh).
    pose proof (Hw0' _ Hw). pose proof (Hw1' _ Hw).
    pose proof (Ht0' _ Ht). pose proof (Ht1' _ Ht). lia. }
  apply list_elem_of_fmap in Hh0 as ([[a b] d] & Ha & Hina).
  apply list_elem_of_fmap in Hh1 as ([[a1 b1] d1] & Ha1 & Hina1).
  apply list_elem_of_fmap in Hw0 as ([[a2 b2] d2] & Ha2 & Hina2).
  apply list_elem_of_fmap in Hw1 as ([[a3 b3] d3] & Ha3 & Hina3).
  apply list_elem_of_fmap in Ht0 as ([[a4 b4] d4] & Ha4 & Hina4).
  apply list_elem_of_fmap in Ht1 as ([[a5 b5] d5] & Ha5 & Hina5).
  simpl in Ha, Ha1, Ha2, Ha3, Ha4, Ha5. subst.
  apply np_where_gt_spec in Hina, Hina1, Hina2, Hina3, Hina4, Hina5.
  destruct Hina as (v & ? & ?), Hina1 as (v1 & ? & ?), Hina2 as (v2 & ? & ?),
    Hina3 as (v3 & ? & ?), Hina4 as (v4 & ? & ?), Hina5 as (v5 & ? & ?).
  repeat split; eauto.
Qed.

Lemma crop_is_block_short_of_upper_bounds_witness :
  exists h0 h1 w0 w1 t0 t1,
    (forall i j k,
       lookup3 [[[1%Q]]] i j k =
       if (i <? h1 - h0) && (j <? w1 - w0) && (k <? t1 - t0)
       then lookup3 demo_cube (h0 + i) (w0 + j) (t0 + k)
       else None) /\
    (forall h w t v, lookup3 demo_cube h w t = Some v -> (99 # 100 < v)%Q ->
       h0 <= h <= h1 /\ w0 <= w <= w1 /\ t0 <= t <= t1) /\
    (exists w t v, lookup3 demo_cube h0 w t = Some v /\ (99 # 100 < v)%Q) /\
    (exists w t v, lookup3 demo_cube h1 w t = Some v /\ (99 # 100 < v)%Q) /\
    (exists h t v, lookup3 demo_cube h w0 t = Some v /\ (99 # 100 < v)%Q) /\
    (exists h t v, lookup3 demo_cube h w1 t = Some v /\ (99 # 100 < v)%Q) /\
    (exists h w v, lookup3 demo_cube h w t0 = Some v /\ (99 # 100 < v)%Q) /\
    (exists h w v, lookup3 demo_cube h w t1 = Some v /\ (99 # 100 < v)%Q).
Proof.
  apply (crop_is_block_short_of_upper_bounds demo_cube [[[1%Q]]]).
  vm_compute. reflexivity.
Defined.

(** ** Volumes the occupancy script cannot train on *)

(** The shape of the crop, from the bounds of the positions above 0.99. *)
Lemma crop_shape_bounds (im c : volume) :
  crop im = Ok c ->
  exists h0 h1 w0 w1 t0 t1 H W T,
    crop_shape im
    = Ok (slice_extent H h0 h1, slice_extent W w0 w1, slice_extent T t0 t1) /\
    let idx := np_where_gt im (99 # 100) in
    h0 ∈ (fun p => p.1.1) <$> idx /\ h1 ∈ (fun p => p.1.1) <$> idx /\
    w0 ∈ (fun p => p.1.2) <$> idx /\ w1 ∈ (fun p => p.1.2) <$> idx /\
    t0 ∈ (fun p => p.2) <$> idx /\ t1 ∈ (fun p => p.2) <$> idx.
Proof.
  unfold crop, crop_shape. cbv zeta.
  set (idx := np_where_gt im (99 # 100)).
  destruct (shape im) as [[H W] T].
  destruct (np_min ((fun p : nat * nat * nat => p.1.1) <$> idx)) as [h0|] eqn:Hh0;
    [|discriminate].
  destruct (np_max ((fun p : nat * nat * nat => p.1.1) <$> idx)) as [h1|] eqn:Hh1;
    [|discriminate].
  destruct (np_min ((fun p : nat * nat * nat => p.1.2) <$> idx)) as [w0|] eqn:Hw0;
    [|discriminate].
  destruct (np_max ((fun p : nat * nat * nat => p.1.2) <$> idx)) as [w1|] eqn:Hw1;
    [|discriminate].
  destruct (np_min ((fun p : nat * nat * nat => p.2) <$> idx)) as [t0|] eqn:Ht0;
    [|discriminate].
  destruct (np_max ((fun p : nat * nat * nat => p.2) <$> idx)) as [t1|] eqn:Ht1;
    [|discriminate].
  intros _. exists h0, h1, w0, w1, t0, t1, H, W, T.
  split; [reflexivity|].
  apply np_min_spec in Hh0, Hw0, Ht0. apply np_max_spec in Hh1, Hw1, Ht1.
  repeat split; tauto.
Qed.

Lemma slice_extent_diag (n lo : nat) : slice_extent n lo lo = 0.
Proof. unfold slice_extent. lia. Qed.

Lemma crop_ok_of_occupied (im : volume) (h w t : nat) (v : Q) :
  lookup3 im h w t = Some v -> (99 # 100 < v)%Q -> exists c, crop im = Ok c.
Proof.
  intros Hv Hlt.
  assert (Hin : (h, w, t) ∈ np_where_gt im (99 # 100)).
  { apply np_where_gt_spec. eauto. }
  unfold crop. cbv zeta.
  destruct (np_where_gt im (99 # 100)) as [|p idx]; [inversion Hin|].
  simpl. eauto.
Qed.

Lemma np_where_gt_axis {A} (f : nat * nat * nat -> A) (im : volume) (thres : Q) (x : A) :
  x ∈ f <$> np_where_gt im thres ->
  exists h w t v, x = f (h, w, t) /\ lookup3 im h w t = Some v /\ (thres < v)%Q.
Proof.
  intros Hx. apply list_elem_of_fmap in Hx as ([[h w] t] & -> & Hin).
  apply np_where_gt_spec in Hin as (v & Hv & Hlt).
  exists h, w, t, v. auto.
Qed.

Section EmptyCrop.
Context {Coord Net : Type} `{Coord_inhabited : Inhabited Coord}.
Variable forward : Net -> list Coord -> tensor.
Variable optim_step : Net -> nat -> list Coord -> tensor -> Net.
Variable randperm : nat -> nat -> list nat.
Variable wandb_log : bool.
Variable wandb : tracker.
Variable get_coords : nat -> nat -> nat -> list Coord.
Variables niters maxpoints : nat.
Variable net0 : Net.

(** On a crop without samples the batch size is 0 and the first [range]
    call of the training loop raises. *)
Lemma occupancy_empty_crop_raises (raw im : volume) (H W T : nat) :
  (wandb_log = true -> init_ok wandb = true) -> 0 < niters ->
  crop raw = Ok im -> crop_shape raw = Ok (H, W, T) -> H * W * T = 0 ->
  Occupancy.main forward optim_step randperm wandb_log wandb get_coords niters
    maxpoints raw net0
  = {| Occupancy.final := Some (Occupancy.init niters H W T net0);
       Occupancy.persisted := [];
       Occupancy.exit := Raise ValueError |}.
Proof.
  intros Hinit Hniters Hcrop Hshape Hn. unfold Occupancy.main, scheduler_init.
  assert (Hi : wandb_log && negb (init_ok wandb) = false).
  { destruct wandb_log; [|reflexivity]. rewrite Hinit; reflexivity. }
  rewrite Hi, Hcrop, Hshape.
  unfold Occupancy.epochs. destruct niters as [|k]; [lia|].
  simpl. unfold Occupancy.epoch_body, Occupancy.batch_size, minibatches, py_range.
  rewrite Hn. simpl. reflexivity.
Qed.

(** X11. A volume whose samples above 0.99 all lie in one plane of some axis
    (a single occupied voxel, for one) is cropped to nothing, and the script
    stops with [ValueError] in its first epoch, before any optimizer step
    and with nothing written. *)
Theorem occupancy_flat_volume_cannot_be_trained (raw : volume) :
  (wandb_log = true -> init_ok wandb = true) -> 0 < niters ->
  (exists h w t v, lookup3 raw h w t = Some v /\ (99 # 100 < v)%Q) ->
  (exists a, forall h w t v, lookup3 raw h w t = Some v -> (99 # 100 < v)%Q -> h = a) \/
  (exists a, forall h w t v, lookup3 raw h w t = Some v -> (99 # 100 < v)%Q -> w = a) \/
  (exists a, forall h w t v, lookup3 raw h w t = Some v -> (99 # 100 < v)%Q -> t = a) ->
  let o := Occupancy.main forward optim_step randperm wandb_log wandb get_coords
             niters maxpoints raw net0 in
  Occupancy.persisted o = [] /\
  Occupancy.exit o = Raise ValueError /\
  exists s, Occupancy.final o = Some s /\ Occupancy.last_epoch s = 0 /\
    Occupancy.best_img s = None.
Proof.
  intros Hinit Hniters (h & w & t & v & Hv & Hlt) Hflat o. subst o.
  destruct (crop_ok_of_occupied raw h w t v Hv Hlt) as (im & Hcrop).
  destruct (crop_shape_bounds raw im Hcrop)
    as (h0 & h1 & w0 & w1 & t0 & t1 & H & W & T & Hshape & Hb).
  cbv zeta in Hb.
  destruct Hb as (Hh0 & Hh1 & Hw0 & Hw1 & Ht0 & Ht1).
  apply np_where_gt_axis in Hh0 as (? & ? & ? & ? & Hh0 & Hv0 & Hlt0).
  apply np_where_gt_axis in Hh1 as (? & ? & ? & ? & Hh1 & Hv1 & Hlt1).
  apply np_where_gt_axis in Hw0 as (? & ? & ? & ? & Hw0 & Hv2 & Hlt2).
  apply np_where_gt_axis in Hw1 as (? & ? & ? & ? & Hw1 & Hv3 & Hlt3).
  apply np_where_gt_axis in Ht0 as (? & ? & ? & ? & Ht0 & Hv4 & Hlt4).
  apply np_where_gt_axis in Ht1 as (? & ? & ? & ? & Ht1 & Hv5 & Hlt5).
  simpl in Hh0, Hh1, Hw0, Hw1, Ht0, Ht1.
  assert (Hdeg : h0 = h1 \/ w0 = w1 \/ t0 = t1).
  { destruct Hflat as [[a Ha]|[[a Ha]|[a Ha]]].
    - left. rewrite Hh0, Hh1, (Ha _ _ _ _ Hv0 Hlt0), (Ha _ _ _ _ Hv1 Hlt1).
      reflexivity.
    - right. left. rewrite Hw0, Hw1, (Ha _ _ _ _ Hv2 Hlt2), (Ha _ _ _ _ Hv3 Hlt3).
      reflexivity.
    - right. right. rewrite Ht0, Ht1, (Ha _ _ _ _ Hv4 Hlt4), (Ha _ _ _ _ Hv5 Hlt5).
      reflexivity. }
  assert (Hempty : slice_extent H h0 h1 * slice_extent W w0 w1 * slice_extent T t0 t1
                   = 0).
  { destruct Hdeg as [->|[->| ->]]; rewrite slice_extent_diag; lia. }
  rewrite (occupancy_empty_crop_raises raw im _ _ _ Hinit Hniters Hcrop Hshape Hempty).
  simpl. split; [reflexivity|]. split; [reflexivity|].
  eexists. split; [reflexivity|]. split; reflexivity.
Qed.

End EmptyCrop.

Lemma occupancy_flat_volume_cannot_be_trained_witness :
  let o := Occupancy.main demo_occ_forward demo_optim_step demo_occ_randperm false
             tracker_up demo_get_coords 2 2 [[[1%Q]]] 0 in
  Occupancy.persisted o = [] /\
  Occupancy.exit o = Raise ValueError /\
  exists s, Occupancy.final o = Some s /\ Occupancy.last_epoch s = 0 /\
    Occupancy.best_img s = None.
Proof.
  apply (occupancy_flat_volume_cannot_be_trained demo_occ_forward demo_optim_step
           demo_occ_randperm false tracker_up demo_get_coords 2 2 0 [[[1%Q]]]).
  - discriminate.
  - lia.
  - exists 0, 0, 0, 1%Q. split; reflexivity.
  - left. exists 0. intros [|h] w t v Hv _; [reflexivity | discriminate].
Defined.

(** ** The mean squared error *)

Lemma Qsum_nonneg (l : list Q) : Forall (fun q => (0 <= q)%Q) l -> (0 <= Qsum l)%Q.
Proof.
  induction 1 as [|q l Hq _ IH]; unfold Qsum; simpl; [apply Qle_refl|].
  change (0 <= q + Qsum l)%Q.
  replace 0%Q with (0 + 0)%Q by reflexivity. apply Qplus_le_compat; assumption.
Qed.

Lemma Qsum_Qeq (l1 l2 : list Q) : Forall2 Qeq l1 l2 -> (Qsum l1 == Qsum l2)%Q.
Proof.
  induction 1 as [|a b l1 l2 Hab _ IH]; unfold Qsum; simpl; [reflexivity|].
  change (a + Qsum l1 == b + Qsum l2)%Q. rewrite Hab, IH. reflexivity.
Qed.

Lemma sq_diff_nonneg (a b : Q) : (0 <= sq_diff a b)%Q.
Proof.
  unfold sq_diff. destruct (a - b)%Q as [n d].
  unfold Qle, Qmult. simpl. rewrite Z.mul_1_r. apply Z.square_nonneg.
Qed.

Lemma sq_diff_sym (a b : Q) : (sq_diff a b == sq_diff b a)%Q.
Proof. unfold sq_diff. ring. Qed.

Lemma sq_errors_nonneg (x y : tensor) : Forall (fun q => (0 <= q)%Q) (sq_errors x y).
Proof.
  unfold sq_errors. revert y. induction x as [|p x IH]; intros [|q y]; simpl;
    try constructor.
  apply Forall_app. split; [|apply IH].
  clear. revert q. induction p as [|a p IHp]; intros [|b q]; simpl; constructor.
  - apply sq_diff_nonneg.
  - apply IHp.
Qed.

Lemma sq_errors_sym (x y : tensor) : Forall2 Qeq (sq_errors x y) (sq_errors y x).
Proof.
  unfold sq_errors. revert y. induction x as [|p x IH]; intros [|q y]; simpl;
    try constructor.
  apply Forall2_app; [|apply IH].
  clear. revert q. induction p as [|a p IHp]; intros [|b q]; simpl; constructor.
  - apply sq_diff_sym.
  - apply IHp.
Qed.

Lemma sq_errors_diag (x : tensor) : Forall (fun q => (q == 0)%Q) (sq_errors x x).
Proof.
  unfold sq_errors. induction x as [|p x IH]; simpl; [constructor|].
  apply Forall_app. split; [|exact IH].
  clear. induction p as [|a p IHp]; simpl; constructor; [|exact IHp].
  unfold sq_diff. ring.
Qed.

Lemma Qsum_zero (l : list Q) : Forall (fun q => (q == 0)%Q) l -> (Qsum l == 0)%Q.
Proof.
  induction 1 as [|q l Hq _ IH]; unfold Qsum; simpl; [reflexivity|].
  change (q + Qsum l == 0)%Q. rewrite Hq, IH. reflexivity.
Qed.

(** X12. The loss [((x - y) ** 2).mean()] of two tensors with at least one element
    is never negative, does not depend on the order of its arguments, and is
    zero when both are the same tensor. *)
Theorem mse_nonneg_symmetric (x y : tensor) :
  sq_errors x y <> [] ->
  (0 <= mse x y)%Q /\ (mse x y == mse y x)%Q /\ (mse x x == 0)%Q.
Proof.
  intros _. unfold mse, mean. split; [|split].
  - unfold Qdiv. apply Qmult_le_0_compat.
    + apply Qsum_nonneg, sq_errors_nonneg.
    + apply Qinv_le_0_compat. unfold Qle. simpl. lia.
  - rewrite (Qsum_Qeq _ _ (sq_errors_sym x y)).
    rewrite (Forall2_length _ _ _ (sq_errors_sym x y)). reflexivity.
  - rewrite (Qsum_zero _ (sq_errors_diag x)). unfold Qdiv. ring.
Qed.

Lemma mse_nonneg_symmetric_witness :
  (0 <= mse demo_gt demo_gt_noisy)%Q /\
  (mse demo_gt demo_gt_noisy == mse demo_gt_noisy demo_gt)%Q /\
  (mse demo_gt demo_gt == 0)%Q.
Proof.
  apply (mse_nonneg_symmetric demo_gt demo_gt_noisy). discriminate.
Defined.

(** ** The exceptions of an epoch *)

Section EpochExceptions.
Context {Coord Net : Type} `{Coord_inhabited : Inhabited Coord}.
Variable forward : Net -> list Coord -> tensor.
Variable optim_step : Net -> nat -> list Coord -> tensor -> Net.
Variable randperm : nat -> nat -> list nat.
Variable wandb_log : bool.
Variable wandb : tracker.

(** X13. An epoch of the occupancy script raises in three ways only:
    [ValueError] from [range] when the crop has no sample or [maxpoints] is
    0, before anything has changed; [IndexError] from the prediction of a
    minibatch of one index, which occurs exactly when the batch size is 1 or
    leaves a remainder of 1, and which ends the epoch before the history,
    the best image and the scheduler are touched; and the failure of
    [xp.log], which leaves the best image and the scheduler as they were.
    The quotient [train_loss / nchunks] never divides by zero and [lossval]
    is never unbound. *)
Theorem occupancy_epoch_raises_only
    (get_coords : nat -> nat -> nat -> list Coord) (maxpoints H W T : nat)
    (im : volume) (idx : nat) (s : Occupancy.state Net) :
  (forall net b_coords, length (forward net b_coords) = length b_coords) ->
  length (randperm idx (H * W * T)) = H * W * T ->
  (forall s' e,
     Occupancy.epoch_body forward optim_step randperm wandb_log wandb get_coords
       maxpoints H W T im idx s = (s', Raise e) ->
     (e = ValueError /\ s' = s /\ (H * W * T = 0 \/ maxpoints = 0)) \/
     (e = IndexError /\ 0 < H * W * T /\ 0 < maxpoints /\
      (Occupancy.batch_size maxpoints H W T = 1 \/
       (H * W * T) mod Occupancy.batch_size maxpoints H W T = 1) /\
      Occupancy.mse_array s' = Occupancy.mse_array s /\
      Occupancy.xp_history s' = Occupancy.xp_history s /\
      Occupancy.last_epoch s' = Occupancy.last_epoch s /\
      Occupancy.best_img s' = Occupancy.best_img s /\
      Occupancy.best_mse s' = Occupancy.best_mse s) \/
     (e = TrackerError /\ wandb_log = true /\ log_ok wandb idx = false /\
      Occupancy.last_epoch s' = Occupancy.last_epoch s /\
      Occupancy.best_img s' = Occupancy.best_img s /\
      Occupancy.best_mse s' = Occupancy.best_mse s)) /\
  (0 < H * W * T -> 0 < maxpoints ->
   Occupancy.batch_size maxpoints H W T = 1 \/
   (H * W * T) mod Occupancy.batch_size maxpoints H W T = 1 ->
   exists s',
     Occupancy.epoch_body forward optim_step randperm wandb_log wandb get_coords
       maxpoints H W T im idx s = (s', Raise IndexError)).
Proof.
  intros Hfwd Hperm. split.
  - intros s' e Hstep.
    destruct (Nat.eq_dec (Occupancy.batch_size maxpoints H W T) 0) as [Hz|Hnz].
    { left. unfold Occupancy.epoch_body, minibatches, py_range in Hstep.
      rewrite Hz in Hstep. simpl in Hstep. injection Hstep as <- <-.
      split; [reflexivity|]. split; [reflexivity|].
      unfold Occupancy.batch_size in Hz. lia. }
    right.
    assert (Hbs : 0 < Occupancy.batch_size maxpoints H W T) by lia.
    assert (Hn : 0 < H * W * T /\ 0 < maxpoints).
    { unfold Occupancy.batch_size in Hnz. lia. }
    unfold Occupancy.epoch_body, xp_log, Occupancy.occupancy in Hstep.
    destruct (minibatches_nonempty (H * W * T) (Occupancy.batch_size maxpoints H W T)
                (randperm idx (H * W * T)) Hbs (proj1 Hn)) as (b & batches & Hb).
    rewrite Hb in Hstep.
    match type of Hstep with context [for_each ?f (b :: batches) ?i] =>
      destruct (minibatch_loop_ran forward optim_step
                  (Occupancy.coords get_coords H W T) (Occupancy.imten im)
                  (Occupancy.last_epoch s) b batches i eq_refl) as [Hcnt [lv Hlv]];
      destruct (for_each f (b :: batches) i) as [l [u|e']] eqn:Hloop
    end.
    + right. apply occupancy_loop_ok in Hloop. rewrite <- Hloop in Hcnt, Hlv.
      rewrite Hcnt, Hlv in Hstep.
      destruct wandb_log; [|discriminate].
      destruct (log_ok wandb idx); [discriminate|].
      injection Hstep as <- <-. simpl. repeat split; reflexivity.
    + left. apply occupancy_loop_raises in Hloop as (-> & b' & Hin & Hone).
      rewrite (forward_length_gather forward _ Hfwd) in Hone.
      injection Hstep as <- <-. simpl.
      split; [reflexivity|]. split; [tauto|]. split; [tauto|].
      split; [|repeat split; reflexivity].
      destruct (minibatches_lengths _ _ _ _ b' Hbs Hperm Hb Hin) as [Hfull|[Hrest _]].
      * left. congruence.
      * right. congruence.
  - intros Hn Hmp Hone.
    assert (Hbs : 0 < Occupancy.batch_size maxpoints H W T).
    { unfold Occupancy.batch_size. lia. }
    destruct (minibatches_single (H * W * T) (Occupancy.batch_size maxpoints H W T)
                (randperm idx (H * W * T)) Hbs Hn Hperm Hone)
      as (batches & b & Hb & Hin & Hlen).
    unfold Occupancy.epoch_body. rewrite Hb.
    match goal with |- context [for_each ?f batches ?i] =>
      destruct (occupancy_loop_index_error forward optim_step
                  (Occupancy.coords get_coords H W T) (Occupancy.imten im)
                  (Occupancy.last_epoch s) Hfwd batches b i Hin Hlen) as (l & ->)
    end.
    eexists. reflexivity.
Qed.

(** X14. An epoch of the image script on an image with at least one pixel raises
    in two ways only: [ValueError] from [range] when [maxpoints] is 0, and
    the failure of [xp.log]. *)
Theorem image_epoch_raises_only
    (H W : nat) (coords : list Coord) (gt gt_noisy : tensor)
    (maxpoints epoch : nat) (s s' : Image.state Net) (e : exn) :
  0 < H * W ->
  Image.epoch_body forward optim_step randperm wandb_log wandb H W coords gt gt_noisy
    maxpoints epoch s = (s', Raise e) ->
  (e = ValueError /\ s' = s /\ maxpoints = 0) \/
  (e = TrackerError /\ wandb_log = true /\ log_ok wandb epoch = false /\
   Image.last_epoch s' = Image.last_epoch s /\
   Image.best_img s' = Image.best_img s /\
   Image.best_mse s' = Image.best_mse s).
Proof.
  intros Hn Hstep.
  destruct (Nat.eq_dec maxpoints 0) as [->|Hnz].
  - left. unfold Image.epoch_body, minibatches, py_range in Hstep.
    simpl in Hstep. injection Hstep as <- <-. auto.
  - right. unfold Image.epoch_body, xp_log in Hstep.
    destruct (minibatches_nonempty (H * W) maxpoints (randperm epoch (H * W)))
      as (b & batches & Hb); [lia | lia |].
    rewrite Hb in Hstep.
    match type of Hstep with context [foldl ?f ?i (b :: batches)] =>
      destruct (minibatch_loop_ran forward optim_step coords gt_noisy
                  (Image.last_epoch s) b batches i eq_refl) as [Hcnt _];
      set (l := foldl f i (b :: batches)) in *
    end.
    rewrite Hcnt in Hstep.
    destruct wandb_log; [|discriminate].
    destruct (log_ok wandb epoch); [discriminate|].
    injection Hstep as <- <-. simpl. repeat split; reflexivity.
Qed.

End EpochExceptions.

Lemma occupancy_epoch_raises_only_witness :
  snd (demo_row_epoch demo_row_init) = Raise IndexError /\
  (forall s' e,
     demo_row_epoch demo_row_init = (s', Raise e) ->
     (e = ValueError /\ s' = demo_row_init /\ (1 * 1 * 3 = 0 \/ 2 = 0)) \/
     (e = IndexError /\ 0 < 1 * 1 * 3 /\ 0 < 2 /\
      (Occupancy.batch_size 2 1 1 3 = 1 \/
       (1 * 1 * 3) mod Occupancy.batch_size 2 1 1 3 = 1) /\
      Occupancy.mse_array s' = Occupancy.mse_array demo_row_init /\
      Occupancy.xp_history s' = Occupancy.xp_history demo_row_init /\
      Occupancy.last_epoch s' = Occupancy.last_epoch demo_row_init /\
      Occupancy.best_img s' = Occupancy.best_img demo_row_init /\
      Occupancy.best_mse s' = Occupancy.best_mse demo_row_init) \/
     (e = TrackerError /\ false = true /\ log_ok tracker_up 0 = false /\
      Occupancy.last_epoch s' = Occupancy.last_epoch demo_row_init /\
      Occupancy.best_img s' = Occupancy.best_img demo_row_init /\
      Occupancy.best_mse s' = Occupancy.best_mse demo_row_init)) /\
  (0 < 1 * 1 * 3 -> 0 < 2 ->
   Occupancy.batch_size 2 1 1 3 = 1 \/
   (1 * 1 * 3) mod Occupancy.batch_size 2 1 1 3 = 1 ->
   exists s', demo_row_epoch demo_row_init = (s', Raise IndexError)).
Proof.
  split; [vm_compute; reflexivity|].
  apply (occupancy_epoch_raises_only demo_forward demo_optim_step demo_randperm false
           tracker_up (fun _ _ _ => demo_coords) 2 1 1 3 demo_row 0 demo_row_init).
  - intros net b_coords. unfold demo_forward. apply length_fmap.
  - reflexivity.
Defined.

Lemma image_epoch_raises_only_witness :
  let r := demo_image_epoch true tracker_down 0 demo_image_init in
  (snd r = Raise TrackerError) /\
  ((TrackerError = ValueError /\ fst r = demo_image_init /\ 2 = 0) \/
   (TrackerError = TrackerError /\ true = true /\ log_ok tracker_down 0 = false /\
    Image.last_epoch (fst r) = Image.last_epoch demo_image_init /\
    Image.best_img (fst r) = Image.best_img demo_image_init /\
    Image.best_mse (fst r) = Image.best_mse demo_image_init)).
Proof.
  intros r. split; [vm_compute; reflexivity|].
  apply (image_epoch_raises_only demo_forward demo_optim_step demo_randperm true
           tracker_down 1 3 demo_coords demo_gt demo_gt_noisy 2 0 demo_image_init
           (fst r) TrackerError); [lia|].
  vm_compute. reflexivity.
Defined.

(** ** The command line *)

(** X15. The nonlinearity that names the output files is the one chosen on the
    command line, for every choice and both scripts, although [posenc] is
    replaced while the model is built: the model is never asked for a
    [posenc] nonlinearity, the positional encoding is on exactly for that
    choice, and the side length never exceeds the largest dimension. *)
Theorem nonlinearity_name_round_trip (nonlin : nonlinearity) (tau : Q) (H W T : nat) :
  (let '(n, posencode, sidelength) := image_model_choice nonlin tau H W in
   saved_nonlin n posencode = nonlin /\ n <> posenc /\
   (posencode = true <-> nonlin = posenc) /\ sidelength <= Nat.max H W) /\
  (let '(n, posencode, sidelength) := occupancy_model_choice nonlin H W T in
   saved_nonlin n posencode = nonlin /\ n <> posenc /\
   (posencode = true <-> nonlin = posenc) /\
   sidelength = Nat.max (Nat.max H W) T).
Proof.
  assert (Hdiv : Nat.max H W / 3 <= Nat.max H W).
  { generalize (Nat.max H W). intros m.
    pose proof (Nat.div_mod_eq m 3). lia. }
  destruct nonlin; cbn [image_model_choice occupancy_model_choice saved_nonlin];
    try destruct (Qltb tau 100);
    (split; (split; [reflexivity|]; split; [discriminate|]; split;
             [split; (reflexivity || discriminate)
             | first [reflexivity | exact Hdiv | lia]])).
Qed.

Lemma img_name_no_dot (s : list ascii) : "."%char ∉ img_name s.
Proof.
  induction s as [|c s IH]; simpl; [apply not_elem_of_nil|].
  destruct (Ascii.eqb_spec c "."%char) as [->|Hne]; [apply not_elem_of_nil|].
  apply not_elem_of_cons. split; [congruence | exact IH].
Qed.

Lemma img_name_app_dot (stem rest : list ascii) :
  "."%char ∉ stem -> img_name (stem ++ "."%char :: rest) = stem.
Proof.
  induction stem as [|c stem IH]; intros Hno; simpl; [reflexivity|].
  apply not_elem_of_cons in Hno as [Hne Hno].
  destruct (Ascii.eqb_spec c "."%char) as [->|_]; [congruence|].
  rewrite IH by exact Hno. reflexivity.
Qed.

Lemma img_name_split (s : list ascii) :
  s = img_name s \/ exists rest, s = img_name s ++ "."%char :: rest.
Proof.
  induction s as [|c s IH]; simpl; [left; reflexivity|].
  destruct (Ascii.eqb_spec c "."%char) as [->|Hne].
  - right. exists s. reflexivity.
  - destruct IH as [IH|[rest IH]].
    + left. congruence.
    + right. exists rest. simpl. congruence.
Qed.

(** X16. [img_name] is the part of the file name before its first dot: it holds no
    dot, the file name is [img_name] followed by nothing or by a dot and the
    rest, and a name without a dot, followed by a dot and anything, gives
    back that name. Two inputs that differ only after the first dot therefore
    share their output files. *)
Theorem img_name_is_part_before_first_dot (img_name_ext : list ascii) :
  ("."%char ∉ img_name img_name_ext) /\
  (img_name_ext = img_name img_name_ext \/
   exists rest, img_name_ext = img_name img_name_ext ++ "."%char :: rest) /\
  (forall stem rest, "."%char ∉ stem -> img_name (stem ++ "."%char :: rest) = stem) /\
  (forall rest rest',
     img_name (img_name img_name_ext ++ "."%char :: rest)
     = img_name (img_name img_name_ext ++ "."%char :: rest')).
Proof.
  split; [apply img_name_no_dot|]. split; [apply img_name_split|].
  split; [apply img_name_app_dot|].
  intros rest rest'. rewrite !img_name_app_dot by apply img_name_no_dot.
  reflexivity.
Qed.

(** ** The saved loss of an epoch and the losses of its minibatches *)

Lemma Qsum_app (l1 l2 : list Q) : (Qsum (l1 ++ l2) == Qsum l1 + Qsum l2)%Q.
Proof.
  induction l1 as [|q l1 IH]; unfold Qsum; simpl; [ring|].
  change (q + Qsum (l1 ++ l2) == q + Qsum l1 + Qsum l2)%Q. rewrite IH. ring.
Qed.

Lemma Qsum_Permutation (l1 l2 : list Q) : l1 ≡ₚ l2 -> (Qsum l1 == Qsum l2)%Q.
Proof.
  induction 1 as [|q l1 l2 _ IH|a b l|l1 l2 l3 _ IH1 _ IH2].
  - reflexivity.
  - change (q + Qsum l1 == q + Qsum l2)%Q. rewrite IH. reflexivity.
  - change (b + (a + Qsum l) == a + (b + Qsum l))%Q. ring.
  - rewrite IH1. exact IH2.
Qed.

Lemma Qsum_Forall2 (l1 l2 : list Q) : Forall2 Qeq l1 l2 -> (Qsum l1 == Qsum l2)%Q.
Proof.
  induction 1 as [|a b l1 l2 Hab _ IH]; [reflexivity|].
  change (a + Qsum l1 == b + Qsum l2)%Q. rewrite Hab, IH. reflexivity.
Qed.

Lemma mean_proper (l1 l2 : list Q) :
  (Qsum l1 == Qsum l2)%Q -> length l1 = length l2 -> (mean l1 == mean l2)%Q.
Proof.
  intros Hsum Hlen. unfold mean. rewrite Hlen, Hsum. reflexivity.
Qed.

Lemma concat_Permutation {A} (l1 l2 : list (list A)) :
  l1 ≡ₚ l2 -> concat l1 ≡ₚ concat l2.
Proof.
  induction 1 as [|x l1 l2 _ IH|x y l|l1 l2 l3 _ IH1 _ IH2]; simpl.
  - reflexivity.
  - rewrite IH. reflexivity.
  - rewrite !app_assoc. rewrite (Permutation_app_comm y x). reflexivity.
  - rewrite IH1. exact IH2.
Qed.

Lemma concat_fmap_concat {A B} (f : A -> list B) (ls : list (list A)) :
  concat ((fun l : list A => concat (f <$> l)) <$> ls) = concat (f <$> concat ls).
Proof.
  induction ls as [|l ls IH]; simpl; [reflexivity|].
  rewrite fmap_app, concat_app, <- IH. reflexivity.
Qed.

Lemma Forall2_Qeq_concat (l1 l2 : list (list Q)) :
  Forall2 (Forall2 Qeq) l1 l2 -> Forall2 Qeq (concat l1) (concat l2).
Proof.
  induction 1 as [|a b l1 l2 Hab _ IH]; simpl; [constructor|].
  apply Forall2_app; assumption.
Qed.

Lemma zip_with_sq_diff_flip (a b : list Q) :
  Forall2 Qeq (zip_with sq_diff a b) (zip_with sq_diff b a).
Proof.
  revert b. induction a as [|x a IH]; intros [|y b]; simpl; constructor.
  - apply sq_diff_sym.
  - apply IH.
Qed.

Lemma zip_with_seq {A B C} `{Inhabited A, Inhabited B} (f : A -> B -> C)
    (x : list A) (y : list B) (n : nat) :
  length x = n -> length y = n ->
  zip_with f x y = (fun i : nat => f (x !!! i) (y !!! i)) <$> seq 0 n.
Proof.
  revert y n. induction x as [|a x IH]; intros [|b y] [|n] Hx Hy;
    try discriminate; [reflexivity|].
  simpl in Hx, Hy. simpl. f_equal.
  rewrite <- fmap_S_seq, <- list_fmap_compose.
  rewrite (IH y n) by lia. apply list_fmap_ext. intros _ i _. reflexivity.
Qed.

(** The squared errors of one minibatch are those of the rows it wrote. *)
Lemma batch_errors_of_rows (targets buf pixelvalues : tensor) (b : list nat) :
  length pixelvalues = length b ->
  (forall j i, b !! j = Some i -> buf !! i = pixelvalues !! j) ->
  Forall2 Qeq (sq_errors pixelvalues (gather targets b))
    (concat ((fun i : nat => zip_with sq_diff (targets !!! i) (buf !!! i)) <$> b)).
Proof.
  unfold sq_errors, gather. intros Hlen Hrows. apply Forall2_Qeq_concat.
  revert pixelvalues Hlen Hrows.
  induction b as [|i b IH]; intros [|p pixelvalues] Hlen Hrows;
    try discriminate; [constructor|].
  simpl. constructor.
  - rewrite (list_lookup_total_correct buf i p) by exact (Hrows 0 i eq_refl).
    apply zip_with_sq_diff_flip.
  - apply IH; [simpl in Hlen; lia|].
    intros j i' Hj. exact (Hrows (S j) i' Hj).
Qed.


Section EpochLoss.
Context {Coord Net : Type} `{Coord_inhabited : Inhabited Coord}.
Variable forward : Net -> list Coord -> tensor.
Variable optim_step : Net -> nat -> list Coord -> tensor -> Net.
Variable coords : list Coord.
Variable targets : tensor.
Variable last_epoch : nat.
(** The model returns one pixel for each coordinate. *)
Hypothesis forward_length : forall net b_coords,
  length (forward net b_coords) = length b_coords.

Local Abbreviation step := (minibatch forward optim_step coords targets last_epoch).
Local Abbreviation errors := (batch_sq_errors forward optim_step coords targets last_epoch).

Lemma batch_losses_are_means (batches : list (list nat)) (net : Net) :
  batch_losses forward optim_step coords targets last_epoch net batches
  = mean <$> errors net batches.
Proof.
  revert net. induction batches as [|b batches IH]; intros net; simpl; [reflexivity|].
  rewrite IH. reflexivity.
Qed.

Lemma minibatch_loop_errors (batches : list (list nat)) (s : loop_state Net) :
  NoDup (concat batches) ->
  (forall i, i ∈ concat batches -> i < length (l_buf s)) ->
  Forall2 (Forall2 Qeq) (errors (l_net s) batches)
    ((fun b : list nat =>
        concat ((fun i : nat =>
                   zip_with sq_diff (targets !!! i) (l_buf (foldl step s batches) !!! i))
                <$> b)) <$> batches).
Proof.
  revert s. induction batches as [|b batches IH]; intros s Hnd Hrange; [constructor|].
  simpl in Hnd. apply NoDup_app in Hnd as (Hnd0 & Hdisj & Hndrest).
  simpl. constructor.
  - apply batch_errors_of_rows.
    + unfold gather. rewrite forward_length, length_fmap. reflexivity.
    + intros j i Hj.
      assert (Hib : i ∈ b) by (apply list_elem_of_lookup; eauto).
      rewrite (minibatch_loop_untouched forward optim_step coords targets last_epoch)
        by (apply Hdisj; exact Hib).
      simpl. apply scatter_lookup_in; [exact Hnd0 | | | exact Hj].
      * unfold gather. rewrite forward_length, length_fmap. reflexivity.
      * apply Hrange. simpl. apply elem_of_app. left. exact Hib.
  - apply (IH (step s b)); [exact Hndrest|].
    intros i Hi. simpl. rewrite scatter_length. apply Hrange.
    simpl. apply elem_of_app. right. exact Hi.
Qed.

(** The mean squared error of the buffer an epoch leaves is the mean of the
    squared errors of its minibatches pooled. *)
Lemma minibatch_loop_pooled (n : nat) (batches : list (list nat)) (s : loop_state Net) :
  concat batches ≡ₚ seq 0 n -> length (l_buf s) = n -> length targets = n ->
  (mse targets (l_buf (foldl step s batches))
   == mean (concat (errors (l_net s) batches)))%Q.
Proof.
  intros Hperm Hbuf Htargets.
  assert (Hnd : NoDup (concat batches)) by (rewrite Hperm; apply NoDup_seq).
  assert (Hrange : forall i, i ∈ concat batches -> i < length (l_buf s)).
  { intros i Hi. rewrite Hperm in Hi. apply elem_of_seq in Hi. lia. }
  pose proof (minibatch_loop_errors batches s Hnd Hrange) as Herr.
  apply Forall2_Qeq_concat in Herr. rewrite concat_fmap_concat in Herr.
  assert (Hrows : sq_errors targets (l_buf (foldl step s batches))
                  ≡ₚ concat ((fun i : nat =>
                       zip_with sq_diff (targets !!! i)
                         (l_buf (foldl step s batches) !!! i)) <$> concat batches)).
  { unfold sq_errors. rewrite (zip_with_seq _ _ _ n).
    - apply concat_Permutation, fmap_Permutation. symmetry. exact Hperm.
    - exact Htargets.
    - rewrite (minibatch_loop_buf_length forward optim_step coords targets last_epoch).
      exact Hbuf. }
  unfold mse. apply mean_proper.
  - rewrite (Qsum_Permutation _ _ Hrows). symmetry. apply Qsum_Forall2. exact Herr.
  - rewrite (Permutation_length Hrows). symmetry. exact (Forall2_length _ _ _ Herr).
Qed.

(** X17. The loss the image script saves for an epoch,
    [((gt_noisy - rec) ** 2).mean()] on the buffer the epoch leaves, is the
    mean of the squared errors of all its minibatches pooled, each taken
    with the parameters its minibatch was processed with, while the loss of
    a minibatch is the mean of its own squared errors: the saved loss weighs
    the minibatch losses by minibatch size. *)
Theorem saved_loss_pools_minibatch_errors (n maxpoints : nat) (indices : list nat)
    (s : loop_state Net) :
  0 < maxpoints -> indices ≡ₚ seq 0 n -> length (l_buf s) = n -> length targets = n ->
  exists batches,
    minibatches n maxpoints indices = Ok batches /\
    batch_losses forward optim_step coords targets last_epoch (l_net s) batches
    = mean <$> errors (l_net s) batches /\
    (mse targets (l_buf (foldl step s batches))
     == mean (concat (errors (l_net s) batches)))%Q.
Proof.
  intros Hm Hperm Hbuf Htargets.
  assert (Hlen : length indices = n).
  { rewrite (Permutation_length Hperm). apply length_seq. }
  pose proof (ceil_div_bound n maxpoints Hm) as Hub.
  assert (Hcat : concat ((fun k => take maxpoints (drop (k * maxpoints) indices))
                           <$> seq 0 ((n + maxpoints - 1) / maxpoints)) = indices).
  { apply concat_chunks. lia. }
  eexists. split; [apply minibatches_chunks; assumption|].
  split; [apply batch_losses_are_means|].
  apply (minibatch_loop_pooled n); [rewrite Hcat; exact Hperm | exact Hbuf | exact Htargets].
Qed.


End EpochLoss.

Lemma saved_loss_pools_minibatch_errors_witness :
  exists batches,
    minibatches 3 2 (demo_randperm 0 3) = Ok batches /\
    batch_losses demo_forward demo_optim_step demo_coords demo_gt_noisy 0
      (l_net demo_loop_state) batches
    = mean <$> batch_sq_errors demo_forward demo_optim_step demo_coords demo_gt_noisy 0
                 (l_net demo_loop_state) batches /\
    (mse demo_gt_noisy
       (l_buf (foldl (minibatch demo_forward demo_optim_step demo_coords
                        demo_gt_noisy 0) demo_loop_state batches))
     == mean (concat (batch_sq_errors demo_forward demo_optim_step demo_coords
                        demo_gt_noisy 0 (l_net demo_loop_state) batches)))%Q.
Proof.
  apply (saved_loss_pools_minibatch_errors demo_forward demo_optim_step demo_coords
           demo_gt_noisy 0).
  - intros net b_coords. unfold demo_forward. apply length_fmap.
  - lia.
  - apply (bool_decide_unpack _). vm_compute. exact I.
  - reflexivity.
  - reflexivity.
Defined.


(** The occupied 2 x 2 x 2 cube is cropped to one voxel; the only minibatch
    of the first epoch holds one index, the prediction raises, and the run
    ends with nothing written. *)
Example one_voxel_crop_aborts :
  let o := Occupancy.main demo_occ_forward demo_optim_step (fun _ _ => [0]) false
             tracker_up (fun _ _ _ => [0]) 2 2 demo_cube 0 in
  crop demo_cube = Ok [[[1%Q]]] /\ crop_shape demo_cube = Ok (1, 1, 1) /\
  Occupancy.exit o = Raise IndexError /\ Occupancy.persisted o = [] /\
  exists s, Occupancy.final o = Some s /\ Occupancy.last_epoch s = 0.
Proof.
  intros o. split; [reflexivity|]. split; [reflexivity|].
  split; [vm_compute; reflexivity|]. split; [vm_compute; reflexivity|].
  eexists. split; vm_compute; reflexivity.
Qed.
